(** * CARBONXO: the certificate registry and the token ledger

    A shallow embedding of the two Soroban contracts of the repository,
    [CarbonToken] (contracts/carbon-token/src/token.rs) and
    [CarbonCertifier] (contracts/carbon-certifier/src/contract.rs), as
    their sources are given in the step documents under docs/.

    Conventions of the embedding.
    - [u32] and [u128] values are [N], [i128] values are [Z].  Rust's
      [+] and [-] are the checked operations of a build with overflow
      checks (the Soroban release profile and every test build): out of
      range they panic.
    - Contract storage is a record with one field per [DataKey] variant;
      keyed variants are finite maps.  A key that was never written is
      absent ([None]), as [storage().get] reports it.
    - An entry point is a function from the state before the call to an
      outcome and the state at the point where the call returned:
      [Ok v], [Err e] for a returned [Err(e)], or [Panic] for a trap
      ([require_auth] refused, [unwrap] of [None], arithmetic overflow).
      The host keeps the writes of a call that returned [Ok] and drops
      those of every other call ([commit]). *)

From stdpp Require Import gmap strings list fin_maps sorting.
From Stdlib Require Import ZArith NArith Lia.

Open Scope N_scope.

(** ** Machine integers *)

Definition u32_MAX : N := 4294967295.
Definition u128_MAX : N := 340282366920938463463374607431768211455.
Definition i128_MAX : Z := 170141183460469231731687303715884105727.
Definition i128_MIN : Z := -170141183460469231731687303715884105728.

Definition add_u32 (a b : N) : option N :=
  if a + b <=? u32_MAX then Some (a + b) else None.

Definition sub_u32 (a b : N) : option N :=
  if b <=? a then Some (a - b) else None.

Definition add_u128 (a b : N) : option N :=
  if a + b <=? u128_MAX then Some (a + b) else None.

Definition sub_u128 (a b : N) : option N :=
  if b <=? a then Some (a - b) else None.

Definition in_i128 (z : Z) : bool :=
  ((i128_MIN <=? z) && (z <=? i128_MAX))%Z.

Definition add_i128 (a b : Z) : option Z :=
  if in_i128 (a + b) then Some (a + b)%Z else None.

Definition sub_i128 (a b : Z) : option Z :=
  if in_i128 (a - b) then Some (a - b)%Z else None.

(** [x as i128] for [x : u128]: reinterpretation of the 128 bits. *)
Definition u128_as_i128 (x : N) : Z :=
  let z := (Z.of_N x mod 2 ^ 128)%Z in
  if (z <=? i128_MAX)%Z then z else (z - 2 ^ 128)%Z.

(** [x as u128] for [x : u32]. *)
Definition u32_as_u128 (x : N) : N := x.

(** ** Addresses and the invocation context *)

Abbreviation Address := string.

(** What the host knows about one invocation: the addresses whose
    authorization covers it, the contract being run, the ledger time. *)
Record Ctx := mkCtx {
  authorized : list Address;
  current_contract : Address;
  ledger_timestamp : N
}.

(** ** Outcomes and the state monad of an invocation *)

Inductive outcome (E A : Type) : Type :=
| Ok (a : A)
| Err (e : E)
| Panic.
Arguments Ok {E A} a.
Arguments Err {E A} e.
Arguments Panic {E A}.

Definition M (S E A : Type) : Type := S -> outcome E A * S.

Definition ret {S E A} (a : A) : M S E A := fun s => (Ok a, s).

Definition bind {S E A B} (m : M S E A) (k : A -> M S E B) : M S E B :=
  fun s =>
    match m s with
    | (Ok a, s') => k a s'
    | (Err e, s') => (Err e, s')
    | (Panic, s') => (Panic, s')
    end.

Definition throw {S E A} (e : E) : M S E A := fun s => (Err e, s).
Definition panic {S E A} : M S E A := fun s => (Panic, s).
Definition gets {S E A} (f : S -> A) : M S E A := fun s => (Ok (f s), s).
Definition modify {S E} (f : S -> S) : M S E unit := fun s => (Ok tt, f s).

(** [o.unwrap()] *)
Definition unwrap {S E A} (o : option A) : M S E A :=
  match o with Some a => ret a | None => panic end.

(** [o.ok_or(e)?] *)
Definition ok_or {S E A} (o : option A) (e : E) : M S E A :=
  match o with Some a => ret a | None => throw e end.

(** [if c { return Err(e); }] *)
Definition fail_if {S E} (c : bool) (e : E) : M S E unit :=
  if c then throw e else ret tt.

(** [a.require_auth()] *)
Definition require_auth {S E} (ctx : Ctx) (a : Address) : M S E unit :=
  if bool_decide (a ∈ authorized ctx) then ret tt else panic.

Notation "x <- m ;; k" := (bind m (fun x => k))
  (at level 100, m at next level, right associativity).
Notation "m ;;; k" := (bind m (fun _ => k))
  (at level 100, right associativity).

(** The host's transaction boundary. *)
Definition commit {S E A} (m : M S E A) (s : S) : outcome E A * S :=
  match m s with
  | (Ok a, s') => (Ok a, s')
  | (Err e, _) => (Err e, s)
  | (Panic, _) => (Panic, s)
  end.

(** ** The token ledger: contracts/carbon-token/src/token.rs *)

Module CarbonToken.

Inductive TokenError : Type :=
| NotInitialized
| Unauthorized
| InsufficientBalance
| InvalidAmount
| InsufficientAllowance.

Inductive Event : Type :=
| MintEvent (to : Address) (amount : Z)
| TransferEvent (from to : Address) (amount : Z)
| ApprovalEvent (owner spender : Address) (amount : Z).

(** [DataKey::Admin], [DataKey::Balance(Address)],
    [DataKey::Allowance(Address, Address)] and the published events. *)
Record State := mkState {
  Admin : option Address;
  Balance : gmap Address Z;
  Allowance : gmap (Address * Address) Z;
  events : list Event
}.

Definition empty : State :=
  {| Admin := None; Balance := ∅; Allowance := ∅; events := [] |}.

Definition set_Admin (a : Address) (s : State) : State :=
  {| Admin := Some a; Balance := Balance s;
     Allowance := Allowance s; events := events s |}.

Definition set_Balance (k : Address) (v : Z) (s : State) : State :=
  {| Admin := Admin s; Balance := <[k := v]> (Balance s);
     Allowance := Allowance s; events := events s |}.

Definition set_Allowance (k : Address * Address) (v : Z) (s : State) : State :=
  {| Admin := Admin s; Balance := Balance s;
     Allowance := <[k := v]> (Allowance s); events := events s |}.

Definition publish (e : Event) (s : State) : State :=
  {| Admin := Admin s; Balance := Balance s;
     Allowance := Allowance s; events := events s ++ [e] |}.

Abbreviation T := (M State TokenError).

Definition require_admin (ctx : Ctx) : T unit :=
  o <- gets Admin ;;
  admin <- ok_or o NotInitialized ;;
  require_auth ctx admin.

Definition get_balance (address : Address) : T Z :=
  gets (fun s => default 0%Z (Balance s !! address)).

Definition set_balance (address : Address) (balance : Z) : T unit :=
  modify (set_Balance address balance).

(** [initialize]: the error of a second call is [NotInitialized], as in
    the source. *)
Definition initialize (ctx : Ctx) (admin : Address) : T unit :=
  o <- gets Admin ;;
  fail_if (bool_decide (is_Some o)) NotInitialized ;;;
  modify (set_Admin admin).

Definition mint (ctx : Ctx) (to : Address) (amount : Z) : T unit :=
  require_admin ctx ;;;
  fail_if (amount <=? 0)%Z InvalidAmount ;;;
  current_balance <- get_balance to ;;
  new_balance <- unwrap (add_i128 current_balance amount) ;;
  set_balance to new_balance ;;;
  modify (publish (MintEvent to amount)).

(** [transfer] of step 9 (Paso 9): the credit reads the balance of [to]
    after the debit of [from] has been stored. *)
Definition transfer (ctx : Ctx) (from to : Address) (amount : Z) : T unit :=
  require_auth ctx from ;;;
  fail_if (amount <=? 0)%Z InvalidAmount ;;;
  from_balance <- get_balance from ;;
  fail_if (from_balance <? amount)%Z InsufficientBalance ;;;
  debited <- unwrap (sub_i128 from_balance amount) ;;
  set_balance from debited ;;;
  to_balance <- get_balance to ;;
  credited <- unwrap (add_i128 to_balance amount) ;;
  set_balance to credited ;;;
  modify (publish (TransferEvent from to amount)).

Definition balance (id : Address) : T Z := get_balance id.

Definition approve (ctx : Ctx) (from spender : Address) (amount : Z) : T unit :=
  require_auth ctx from ;;;
  fail_if (amount <? 0)%Z InvalidAmount ;;;
  modify (set_Allowance (from, spender) amount) ;;;
  modify (publish (ApprovalEvent from spender amount)).

Definition allowance (from spender : Address) : T Z :=
  gets (fun s => default 0%Z (Allowance s !! (from, spender))).

(** [transfer_from] of step 11 (Paso 11). *)
Definition transfer_from (ctx : Ctx) (spender from to : Address) (amount : Z)
  : T unit :=
  require_auth ctx spender ;;;
  fail_if (amount <=? 0)%Z InvalidAmount ;;;
  from_balance <- get_balance from ;;
  fail_if (from_balance <? amount)%Z InsufficientBalance ;;;
  current_allowance <- allowance from spender ;;
  fail_if (current_allowance <? amount)%Z InsufficientAllowance ;;;
  debited <- unwrap (sub_i128 from_balance amount) ;;
  set_balance from debited ;;;
  to_balance <- get_balance to ;;
  credited <- unwrap (add_i128 to_balance amount) ;;
  set_balance to credited ;;;
  new_allowance <- unwrap (sub_i128 current_allowance amount) ;;
  modify (set_Allowance (from, spender) new_allowance) ;;;
  modify (publish (TransferEvent from to amount)).

(** The public entry points, as one call type. *)
Inductive Call : Type :=
| CallInitialize (admin : Address)
| CallMint (to : Address) (amount : Z)
| CallTransfer (from to : Address) (amount : Z)
| CallBalance (id : Address)
| CallApprove (from spender : Address) (amount : Z)
| CallAllowance (from spender : Address)
| CallTransferFrom (spender from to : Address) (amount : Z).

Inductive Value : Type :=
| VUnit
| VAmount (z : Z).

Definition run (ctx : Ctx) (c : Call) : T Value :=
  match c with
  | CallInitialize admin => initialize ctx admin ;;; ret VUnit
  | CallMint to amount => mint ctx to amount ;;; ret VUnit
  | CallTransfer from to amount => transfer ctx from to amount ;;; ret VUnit
  | CallBalance id => z <- balance id ;; ret (VAmount z)
  | CallApprove from spender amount =>
      approve ctx from spender amount ;;; ret VUnit
  | CallAllowance from spender => z <- allowance from spender ;; ret (VAmount z)
  | CallTransferFrom spender from to amount =>
      transfer_from ctx spender from to amount ;;; ret VUnit
  end.

End CarbonToken.

(** ** The certificate registry: contracts/carbon-certifier/src/contract.rs *)

Module CarbonCertifier.

Inductive ContractError : Type :=
| AlreadyExists
| NotFound
| InvalidInput
| NotOwner
| NotAuthorized.

Record VerificationRecord := mkRecord {
  verifier_address : Address;
  farmer_address : Address;
  hectares_not_burned : N;
  co2e_tons : N;
  metadata_hash : list Byte.byte
}.

Inductive SortBy : Type :=
| Co2eTons
| Hectares
| CertificateId.

Inductive Event : Type :=
| CertificateMintedEvent (certificate_id : N) (farmer verifier : Address)
    (tons_minted : N) (timestamp : N)
| CertificateTransferredEvent (certificate_id : N) (from to : Address)
| CertificateBurnedEvent (certificate_id : N) (burned_by : Address)
    (co2e_tons_retired : N).

(** The environment of the registry: its storage, one field per
    [DataKey] variant, the events it published, and the token ledgers
    deployed on the same host, by contract address. *)
Record Env := mkEnv {
  Certificates : gmap N VerificationRecord;
  TotalCertificates : option N;
  TotalCO2e : option N;
  FarmerCertList : gmap Address (list N);
  VerifierCertList : gmap Address (list N);
  CertificateOwner : gmap N Address;
  TokenContractId : option Address;
  Admin : option Address;
  events : list Event;
  ledgers : gmap Address CarbonToken.State
}.

Definition initial (L : gmap Address CarbonToken.State) : Env :=
  {| Certificates := ∅; TotalCertificates := None; TotalCO2e := None;
     FarmerCertList := ∅; VerifierCertList := ∅; CertificateOwner := ∅;
     TokenContractId := None; Admin := None; events := []; ledgers := L |}.

Definition upd_Certificates (f : gmap N VerificationRecord -> gmap N VerificationRecord)
  (s : Env) : Env :=
  mkEnv (f (Certificates s)) (TotalCertificates s) (TotalCO2e s)
    (FarmerCertList s) (VerifierCertList s) (CertificateOwner s)
    (TokenContractId s) (Admin s) (events s) (ledgers s).

Definition set_TotalCertificates (n : N) (s : Env) : Env :=
  mkEnv (Certificates s) (Some n) (TotalCO2e s)
    (FarmerCertList s) (VerifierCertList s) (CertificateOwner s)
    (TokenContractId s) (Admin s) (events s) (ledgers s).

Definition set_TotalCO2e (n : N) (s : Env) : Env :=
  mkEnv (Certificates s) (TotalCertificates s) (Some n)
    (FarmerCertList s) (VerifierCertList s) (CertificateOwner s)
    (TokenContractId s) (Admin s) (events s) (ledgers s).

Definition set_FarmerCertList (a : Address) (l : list N) (s : Env) : Env :=
  mkEnv (Certificates s) (TotalCertificates s) (TotalCO2e s)
    (<[a := l]> (FarmerCertList s)) (VerifierCertList s) (CertificateOwner s)
    (TokenContractId s) (Admin s) (events s) (ledgers s).

Definition set_VerifierCertList (a : Address) (l : list N) (s : Env) : Env :=
  mkEnv (Certificates s) (TotalCertificates s) (TotalCO2e s)
    (FarmerCertList s) (<[a := l]> (VerifierCertList s)) (CertificateOwner s)
    (TokenContractId s) (Admin s) (events s) (ledgers s).

Definition upd_CertificateOwner (f : gmap N Address -> gmap N Address)
  (s : Env) : Env :=
  mkEnv (Certificates s) (TotalCertificates s) (TotalCO2e s)
    (FarmerCertList s) (VerifierCertList s) (f (CertificateOwner s))
    (TokenContractId s) (Admin s) (events s) (ledgers s).

Definition set_TokenContractId (a : Address) (s : Env) : Env :=
  mkEnv (Certificates s) (TotalCertificates s) (TotalCO2e s)
    (FarmerCertList s) (VerifierCertList s) (CertificateOwner s)
    (Some a) (Admin s) (events s) (ledgers s).

Definition set_Admin (a : Address) (s : Env) : Env :=
  mkEnv (Certificates s) (TotalCertificates s) (TotalCO2e s)
    (FarmerCertList s) (VerifierCertList s) (CertificateOwner s)
    (TokenContractId s) (Some a) (events s) (ledgers s).

Definition publish (e : Event) (s : Env) : Env :=
  mkEnv (Certificates s) (TotalCertificates s) (TotalCO2e s)
    (FarmerCertList s) (VerifierCertList s) (CertificateOwner s)
    (TokenContractId s) (Admin s) (events s ++ [e]) (ledgers s).

Definition set_ledger (a : Address) (l : CarbonToken.State) (s : Env) : Env :=
  mkEnv (Certificates s) (TotalCertificates s) (TotalCO2e s)
    (FarmerCertList s) (VerifierCertList s) (CertificateOwner s)
    (TokenContractId s) (Admin s) (events s) (<[a := l]> (ledgers s)).

Abbreviation C := (M Env ContractError).

(** *** Counters *)

Definition increment_certificate_count : C unit :=
  o <- gets TotalCertificates ;;
  let current_count := default 0 o in
  n <- unwrap (add_u32 current_count 1) ;;
  modify (set_TotalCertificates n).

Definition add_co2e_to_total (co2e_tons : N) : C unit :=
  o <- gets TotalCO2e ;;
  let current_total := default 0 o in
  n <- unwrap (add_u128 current_total co2e_tons) ;;
  modify (set_TotalCO2e n).

Definition decrement_certificate_count : C unit :=
  o <- gets TotalCertificates ;;
  let current_count := default 0 o in
  if 0 <? current_count then
    n <- unwrap (sub_u32 current_count 1) ;;
    modify (set_TotalCertificates n)
  else ret tt.

Definition subtract_co2e_from_total (co2e_tons : N) : C unit :=
  o <- gets TotalCO2e ;;
  let current_total := default 0 o in
  if co2e_tons <=? current_total then
    n <- unwrap (sub_u128 current_total co2e_tons) ;;
    modify (set_TotalCO2e n)
  else ret tt.

Definition get_total_certificates : C N :=
  gets (fun s => default 0 (TotalCertificates s)).

Definition get_total_co2e : C N :=
  gets (fun s => default 0 (TotalCO2e s)).

(** *** Index lists *)

Definition get_index (actor_address : Address) (is_farmer : bool) (s : Env)
  : option (list N) :=
  if is_farmer then FarmerCertList s !! actor_address
  else VerifierCertList s !! actor_address.

Definition set_index (actor_address : Address) (is_farmer : bool) (l : list N)
  : Env -> Env :=
  if is_farmer then set_FarmerCertList actor_address l
  else set_VerifierCertList actor_address l.

Definition add_to_index (actor_address : Address) (certificate_id : N)
  (is_farmer : bool) : C unit :=
  o <- gets (get_index actor_address is_farmer) ;;
  let cert_list := default [] o in
  modify (set_index actor_address is_farmer (cert_list ++ [certificate_id])).

(** The scan [for i in 0..cert_list.len()] with its [break]. *)
Fixpoint find_index (certificate_id : N) (cert_list : list N) (i : nat)
  : option nat :=
  match cert_list with
  | [] => None
  | x :: rest =>
      if x =? certificate_id then Some i
      else find_index certificate_id rest (S i)
  end.

(** [cert_list.set(i, v)]: panics out of bounds. *)
Definition vec_set {A} (i : nat) (v : A) (l : list A) : option (list A) :=
  if bool_decide (i < length l)%nat then Some (<[i := v]> l) else None.

(** Swap with the last element, then [pop_back]. *)
Definition swap_and_pop (cert_list : list N) (index : nat) : option (list N) :=
  last_index ← sub_u32 (N.of_nat (length cert_list)) 1;
  swapped ←
    (if N.of_nat index <? last_index then
       last_cert_id ← cert_list !! N.to_nat last_index;
       vec_set index last_cert_id cert_list
     else Some cert_list);
  Some (removelast swapped).

(** [remove_from_index] of step 12: nothing is written when the actor
    has no list or the list does not hold the id. *)
Definition remove_from_index (actor_address : Address) (certificate_id : N)
  (is_farmer : bool) : C unit :=
  o <- gets (get_index actor_address is_farmer) ;;
  match o with
  | Some cert_list =>
      match find_index certificate_id cert_list 0 with
      | Some index =>
          l <- unwrap (swap_and_pop cert_list index) ;;
          modify (set_index actor_address is_farmer l)
      | None => ret tt
      end
  | None => ret tt
  end.

(** *** Pagination, sorting, filtering *)

(** A [for] loop whose body may panic: the body is run on each index in
    turn, threading the accumulated value. *)
Fixpoint for_each {A} (body : A -> nat -> option A) (indices : list nat) (acc : A)
  : option A :=
  match indices with
  | [] => Some acc
  | i :: rest => acc' ← body acc i; for_each body rest acc'
  end.

(** The indices of [for i in a..b]. *)
Definition range (a b : nat) : list nat := seq a (b - a).

(** [paginate_cert_list] of step 6 (Paso 6); [None] is a panic. *)
Definition paginate_cert_list (all_certs : list N) (offset limit : N)
  : option (list N * N) :=
  let total := N.of_nat (length all_certs) in
  if total <=? offset then Some ([], total)
  else
    sum ← add_u32 offset limit;
    let end_ := N.min sum total in
    paginated ←
      for_each (fun paginated i => x ← all_certs !! i; Some (paginated ++ [x]))
        (range (N.to_nat offset) (N.to_nat end_)) [];
    Some (paginated, total).

Definition sort_value (sort_by : SortBy) (id : N) (record : VerificationRecord)
  : N :=
  match sort_by with
  | Co2eTons => co2e_tons record
  | Hectares => u32_as_u128 (hectares_not_burned record)
  | CertificateId => u32_as_u128 id
  end.

(** The loop building the [(id, sort value)] pairs: ids without a stored
    record are skipped. *)
Fixpoint sort_pairs (certs : gmap N VerificationRecord) (sort_by : SortBy)
  (cert_ids : list N) : list (N * N) :=
  match cert_ids with
  | [] => []
  | id :: rest =>
      match certs !! id with
      | Some record =>
          (id, sort_value sort_by id record) :: sort_pairs certs sort_by rest
      | None => sort_pairs certs sort_by rest
      end
  end.

Definition should_swap (is_descending : bool) (a b : N * N) : bool :=
  if is_descending then a.2 <? b.2 else b.2 <? a.2.

(** The body of the inner loop at index [j]. *)
Definition bubble_step (is_descending : bool) (pairs : list (N * N)) (j : nat)
  : option (list (N * N)) :=
  a ← pairs !! j;
  b ← pairs !! (j + 1)%nat;
  if should_swap is_descending a b then
    pairs1 ← vec_set j b pairs;
    vec_set (j + 1)%nat a pairs1
  else Some pairs.

(** The body of the outer loop at index [i]: [for j in 0..(len - i - 1)].
    The subtraction cannot underflow, [i] ranging below [len]. *)
Definition bubble_pass (is_descending : bool) (len : nat)
  (pairs : list (N * N)) (i : nat) : option (list (N * N)) :=
  for_each (bubble_step is_descending) (range 0 (len - i - 1)) pairs.

Definition bubble_sort (is_descending : bool) (pairs : list (N * N))
  : option (list (N * N)) :=
  let len := length pairs in
  for_each (bubble_pass is_descending len) (range 0 len) pairs.

(** [sort_certificates] of step 7 (Paso 7): lists of at most one id are
    copied as they are, longer ones go through the pairs and the sort. *)
Definition sort_certificates (certs : gmap N VerificationRecord)
  (cert_ids : list N) (sort_by : SortBy) (is_descending : bool)
  : option (list N) :=
  if bool_decide (length cert_ids ≤ 1)%nat then Some cert_ids
  else
    sorted ← bubble_sort is_descending (sort_pairs certs sort_by cert_ids);
    Some (sorted.*1).

Fixpoint filter_by_co2e (certs : gmap N VerificationRecord)
  (cert_ids : list N) (min_tons max_tons : N) : list N :=
  match cert_ids with
  | [] => []
  | id :: rest =>
      match certs !! id with
      | Some record =>
          if (min_tons <=? co2e_tons record) && (co2e_tons record <=? max_tons)
          then id :: filter_by_co2e certs rest min_tons max_tons
          else filter_by_co2e certs rest min_tons max_tons
      | None => filter_by_co2e certs rest min_tons max_tons
      end
  end.

Definition list_certificates_by_farmer (farmer_address : Address)
  (offset limit : N) (sort_by : SortBy) (is_descending : bool)
  : C (list N * N) :=
  o <- gets (fun s => FarmerCertList s !! farmer_address) ;;
  let all_certs := default [] o in
  certs <- gets Certificates ;;
  sorted_ids <- unwrap (sort_certificates certs all_certs sort_by is_descending) ;;
  unwrap (paginate_cert_list sorted_ids offset limit).

Definition list_certificates_by_verifier (verifier_address : Address)
  (offset limit : N) : C (list N * N) :=
  o <- gets (fun s => VerifierCertList s !! verifier_address) ;;
  let all_certs := default [] o in
  unwrap (paginate_cert_list all_certs offset limit).

Definition filter_by_co2e_range (farmer_address : Address)
  (min_tons max_tons offset limit : N) : C (list N * N) :=
  o <- gets (fun s => FarmerCertList s !! farmer_address) ;;
  let all_certs := default [] o in
  certs <- gets Certificates ;;
  let filtered_ids := filter_by_co2e certs all_certs min_tons max_tons in
  unwrap (paginate_cert_list filtered_ids offset limit).

(** *** The cross-contract call *)

Inductive InvokeError : Type :=
| MissingContract
| ContractFailed (e : CarbonToken.TokenError)
| Trapped.

Definition nested_ctx (ctx : Ctx) (callee : Address) : Ctx :=
  {| authorized := current_contract ctx :: authorized ctx;
     current_contract := callee;
     ledger_timestamp := ledger_timestamp ctx |}.

(** Modelled from the spec: the host function [Env::invoke_contract] of
    the Soroban SDK, which [mint_certificate] calls as
    [env.invoke_contract(&token_contract_id, "mint", [to, amount])] and
    whose result it binds as a [Result<(), Error>] that it drops.  The
    call is a synchronous nested invocation in the same transaction: the
    ledger at [token_contract_id] runs [mint], authorized by the calling
    contract; its writes are kept when it returns [Ok] and dropped
    otherwise, and a failure reaches the caller as a value, not as a
    trap of the caller. *)
Definition invoke_contract_mint (ctx : Ctx) (token_contract_id to : Address)
  (amount : Z) : C (unit + InvokeError) :=
  fun env =>
    match ledgers env !! token_contract_id with
    | None => (Ok (inr MissingContract), env)
    | Some ledger =>
        match CarbonToken.mint (nested_ctx ctx token_contract_id) to amount ledger with
        | (Ok _, ledger') => (Ok (inl tt), set_ledger token_contract_id ledger' env)
        | (Err e, _) => (Ok (inr (ContractFailed e)), env)
        | (Panic, _) => (Ok (inr Trapped), env)
        end
    end.

(** *** Entry points *)

Definition initialize (ctx : Ctx) (admin : Address) : C unit :=
  o <- gets Admin ;;
  fail_if (bool_decide (is_Some o)) AlreadyExists ;;;
  modify (set_Admin admin).

Definition get_admin : C Address :=
  o <- gets Admin ;;
  ok_or o NotFound.

Definition set_token_contract_id (ctx : Ctx) (admin token_id : Address) : C unit :=
  require_auth ctx admin ;;;
  o <- gets Admin ;;
  stored_admin <- ok_or o NotAuthorized ;;
  fail_if (negb (bool_decide (stored_admin = admin))) NotAuthorized ;;;
  modify (set_TokenContractId token_id).

(** [mint_certificate] as it stands after step 10 (Paso 10): the
    authorization, the validation, the duplicate check, the store, the
    counters and the two index entries of the complete flow of step 5
    (the part the listing of step 10 elides), then the initial owner of
    step 8, the cross-contract call of step 10 and the event. *)
Definition mint_certificate (ctx : Ctx) (certificate_id : N)
  (record : VerificationRecord) : C unit :=
  require_auth ctx (verifier_address record) ;;;
  fail_if (hectares_not_burned record =? 0) InvalidInput ;;;
  fail_if (co2e_tons record =? 0) InvalidInput ;;;
  existing <- gets (fun s => Certificates s !! certificate_id) ;;
  fail_if (bool_decide (is_Some existing)) AlreadyExists ;;;
  modify (upd_Certificates <[certificate_id := record]>) ;;;
  increment_certificate_count ;;;
  add_co2e_to_total (co2e_tons record) ;;;
  add_to_index (farmer_address record) certificate_id true ;;;
  add_to_index (verifier_address record) certificate_id false ;;;
  modify (upd_CertificateOwner <[certificate_id := farmer_address record]>) ;;;
  token <- gets TokenContractId ;;
  match token with
  | Some token_contract_id =>
      let amount := u128_as_i128 (co2e_tons record) in
      _ <- invoke_contract_mint ctx token_contract_id (farmer_address record) amount ;;
      ret tt
  | None => ret tt
  end ;;;
  let timestamp := ledger_timestamp ctx in
  modify (publish (CertificateMintedEvent certificate_id (farmer_address record)
                     (verifier_address record) (co2e_tons record) timestamp)).

Definition get_certificate_data (certificate_id : N) : C VerificationRecord :=
  o <- gets (fun s => Certificates s !! certificate_id) ;;
  ok_or o NotFound.

Definition get_certificate_owner (certificate_id : N) : C Address :=
  o <- gets (fun s => Certificates s !! certificate_id) ;;
  fail_if (negb (bool_decide (is_Some o))) NotFound ;;;
  owner <- gets (fun s => CertificateOwner s !! certificate_id) ;;
  ok_or owner NotFound.

(** [transfer_certificate] of step 8 (Paso 8). *)
Definition transfer_certificate (ctx : Ctx) (certificate_id : N)
  (from to : Address) : C unit :=
  require_auth ctx from ;;;
  o <- gets (fun s => Certificates s !! certificate_id) ;;
  fail_if (negb (bool_decide (is_Some o))) NotFound ;;;
  owner <- gets (fun s => CertificateOwner s !! certificate_id) ;;
  current_owner <- ok_or owner NotFound ;;
  fail_if (negb (bool_decide (current_owner = from))) NotOwner ;;;
  modify (upd_CertificateOwner <[certificate_id := to]>) ;;;
  modify (publish (CertificateTransferredEvent certificate_id from to)).

(** [burn_certificate] of step 12 (Paso 12). *)
Definition burn_certificate (ctx : Ctx) (certificate_id : N) : C unit :=
  o <- gets (fun s => Certificates s !! certificate_id) ;;
  record <- ok_or o NotFound ;;
  o' <- gets (fun s => CertificateOwner s !! certificate_id) ;;
  owner <- ok_or o' NotFound ;;
  require_auth ctx owner ;;;
  let co2e_tons := co2e_tons record in
  modify (upd_CertificateOwner (delete certificate_id)) ;;;
  modify (upd_Certificates (delete certificate_id)) ;;;
  remove_from_index (farmer_address record) certificate_id true ;;;
  remove_from_index (verifier_address record) certificate_id false ;;;
  decrement_certificate_count ;;;
  subtract_co2e_from_total co2e_tons ;;;
  modify (publish (CertificateBurnedEvent certificate_id owner co2e_tons)).

(** The public entry points, as one call type. *)
Inductive Call : Type :=
| CallInitialize (admin : Address)
| CallGetAdmin
| CallSetTokenContractId (admin token_id : Address)
| CallMintCertificate (certificate_id : N) (record : VerificationRecord)
| CallGetCertificateData (certificate_id : N)
| CallGetCertificateOwner (certificate_id : N)
| CallTransferCertificate (certificate_id : N) (from to : Address)
| CallBurnCertificate (certificate_id : N)
| CallListByFarmer (farmer_address : Address) (offset limit : N)
    (sort_by : SortBy) (is_descending : bool)
| CallListByVerifier (verifier_address : Address) (offset limit : N)
| CallFilterByCo2eRange (farmer_address : Address)
    (min_tons max_tons offset limit : N)
| CallGetTotalCertificates
| CallGetTotalCo2e.

Inductive Value : Type :=
| VUnit
| VAddress (a : Address)
| VRecord (r : VerificationRecord)
| VPage (p : list N * N)
| VCount (n : N).

Definition run (ctx : Ctx) (c : Call) : C Value :=
  match c with
  | CallInitialize admin => initialize ctx admin ;;; ret VUnit
  | CallGetAdmin => a <- get_admin ;; ret (VAddress a)
  | CallSetTokenContractId admin token_id =>
      set_token_contract_id ctx admin token_id ;;; ret VUnit
  | CallMintCertificate certificate_id record =>
      mint_certificate ctx certificate_id record ;;; ret VUnit
  | CallGetCertificateData certificate_id =>
      r <- get_certificate_data certificate_id ;; ret (VRecord r)
  | CallGetCertificateOwner certificate_id =>
      a <- get_certificate_owner certificate_id ;; ret (VAddress a)
  | CallTransferCertificate certificate_id from to =>
      transfer_certificate ctx certificate_id from to ;;; ret VUnit
  | CallBurnCertificate certificate_id =>
      burn_certificate ctx certificate_id ;;; ret VUnit
  | CallListByFarmer farmer_address offset limit sort_by is_descending =>
      p <- list_certificates_by_farmer farmer_address offset limit sort_by
             is_descending ;;
      ret (VPage p)
  | CallListByVerifier verifier_address offset limit =>
      p <- list_certificates_by_verifier verifier_address offset limit ;;
      ret (VPage p)
  | CallFilterByCo2eRange farmer_address min_tons max_tons offset limit =>
      p <- filter_by_co2e_range farmer_address min_tons max_tons offset limit ;;
      ret (VPage p)
  | CallGetTotalCertificates => n <- get_total_certificates ;; ret (VCount n)
  | CallGetTotalCo2e => n <- get_total_co2e ;; ret (VCount n)
  end.

(** The states the registry can be in: the empty storage next to any
    ledgers, then any public call that returned [Ok]; the ledgers may
    change between two calls to the registry. *)
Inductive reachable : Env -> Prop :=
| reachable_initial L : reachable (initial L)
| reachable_call ctx c s v s' :
    reachable s -> run ctx c s = (Ok v, s') -> reachable s'
| reachable_ledger a l s :
    reachable s -> reachable (set_ledger a l s).

End CarbonCertifier.

(** ** Definitions used to state the properties *)

Module TokenSpec.
Import CarbonToken.

(** What [balance] returns, as a function of the state. *)
Definition balance_of (s : State) (a : Address) : Z :=
  default 0%Z (Balance s !! a).

(** What [allowance] returns. *)
Definition allowance_of (s : State) (from spender : Address) : Z :=
  default 0%Z (Allowance s !! (from, spender)).

(** The stored amounts are [i128] values. *)
Definition well_typed (s : State) : Prop :=
  map_Forall (fun _ z => in_i128 z = true) (Balance s) /\
  map_Forall (fun _ z => in_i128 z = true) (Allowance s).

(** An invocation of the ledger authorized by [signers]. *)
Definition ctx_of (signers : list Address) : Ctx :=
  {| authorized := signers; current_contract := "token"; ledger_timestamp := 0 |}.

(** A ledger on which alice holds 10 tokens. *)
Definition alice_10 : State := set_Balance "alice" 10 empty.

(** A ledger on which alice holds 1000 tokens and bob may spend 300. *)
Definition alice_bob_300 : State :=
  set_Allowance ("alice", "bob") 300 (set_Balance "alice" 1000 empty).

End TokenSpec.

Module RegistrySpec.
Import CarbonCertifier.

(** The list [remove_from_index] stores for a list [l]: [l] without the
    first occurrence of [id], the last element moved into its place. *)
Definition remove_id (id : N) (l : list N) : list N :=
  match find_index id l 0 with
  | Some i => default l (swap_and_pop l i)
  | None => l
  end.

(** The order a direction asks for between neighbours. *)
Definition in_order (is_descending : bool) (a b : N * N) : Prop :=
  if is_descending then b.2 <= a.2 else a.2 <= b.2.

(** [m] comparisons of one pass, carrying the larger element along. *)
Fixpoint carry (d : bool) (m : nat) (a : N * N) (l : list (N * N))
  : list (N * N) :=
  match m, l with
  | S m', b :: r =>
      if should_swap d a b then b :: carry d m' a r else a :: carry d m' b r
  | _, _ => a :: l
  end.

(** The state of the outer loop after [i] passes: the last [i] elements
    are in their final place. *)
Definition settled (d : bool) (pairs : list (N * N)) (i : nat)
  (cur : list (N * N)) : Prop :=
  exists front back,
    cur = front ++ back /\ length back = i /\ cur ≡ₚ pairs /\
    StronglySorted (in_order d) back /\
    Forall (fun x => Forall (in_order d x) back) front.

(** The registry after the nested call: only the ledgers can differ. *)
Definition after_invoke (ctx : Ctx) (token_contract_id to : Address)
  (amount : Z) (s : Env) : Env :=
  (invoke_contract_mint ctx token_contract_id to amount s).2.

(** The bridge of [mint_certificate]. *)
Definition bridge (ctx : Ctx) (record : VerificationRecord) (s : Env) : Env :=
  match TokenContractId s with
  | Some token_contract_id =>
      after_invoke ctx token_contract_id (farmer_address record)
        (u128_as_i128 (co2e_tons record)) s
  | None => s
  end.

(** The state a successful [mint_certificate] returns, the counters
    having moved to [n1] and [n2]. *)
Definition minted (ctx : Ctx) (certificate_id : N) (record : VerificationRecord)
  (n1 n2 : N) (s : Env) : Env :=
  let s1 := upd_Certificates <[certificate_id := record]> s in
  let s2 := set_TotalCertificates n1 s1 in
  let s3 := set_TotalCO2e n2 s2 in
  let s4 := set_index (farmer_address record) true
              (default [] (FarmerCertList s !! farmer_address record)
               ++ [certificate_id]) s3 in
  let s5 := set_index (verifier_address record) false
              (default [] (VerifierCertList s !! verifier_address record)
               ++ [certificate_id]) s4 in
  let s6 := upd_CertificateOwner <[certificate_id := farmer_address record]> s5 in
  publish (CertificateMintedEvent certificate_id (farmer_address record)
             (verifier_address record) (co2e_tons record) (ledger_timestamp ctx))
    (bridge ctx record s6).

(** The state [remove_from_index] returns. *)
Definition pruned (a : Address) (id : N) (f : bool) (s : Env) : Env :=
  match get_index a f s with
  | Some l => set_index a f (remove_id id l) s
  | None => s
  end.

(** The state a successful [burn_certificate] returns. *)
Definition burned (certificate_id : N) (record : VerificationRecord)
  (owner : Address) (s : Env) : Env :=
  let s1 := upd_CertificateOwner (delete certificate_id) s in
  let s2 := upd_Certificates (delete certificate_id) s1 in
  let s3 := pruned (farmer_address record) certificate_id true s2 in
  let s4 := pruned (verifier_address record) certificate_id false s3 in
  let count := default 0 (TotalCertificates s) in
  let s5 := if 0 <? count then set_TotalCertificates (count - 1) s4 else s4 in
  let total := default 0 (TotalCO2e s) in
  let s6 := if co2e_tons record <=? total
            then set_TotalCO2e (total - co2e_tons record) s5 else s5 in
  publish (CertificateBurnedEvent certificate_id owner (co2e_tons record)) s6.

(** The sum of [co2e_tons] over the stored records. *)
Definition total_co2e_of (certs : gmap N VerificationRecord) : N :=
  map_fold (fun _ record acc => co2e_tons record + acc) 0 certs.

(** An index maps each actor to a duplicate-free list of ids of stored
    records naming that actor. *)
Definition index_ok (who : VerificationRecord -> Address)
  (certs : gmap N VerificationRecord) (index : gmap Address (list N)) : Prop :=
  forall a l, index !! a = Some l ->
    NoDup l /\
    forall id, id ∈ l -> exists r, certs !! id = Some r /\ who r = a.

(** The invariant of the registry: owners and records have the same
    ids, the counters agree with the records, and both indices are
    sound. *)
Record registry_inv (s : Env) : Prop := {
  inv_owner : forall id,
    is_Some (CertificateOwner s !! id) <-> is_Some (Certificates s !! id);
  inv_count :
    default 0 (TotalCertificates s) = N.of_nat (size (Certificates s));
  inv_total : default 0 (TotalCO2e s) = total_co2e_of (Certificates s);
  inv_farmer : index_ok farmer_address (Certificates s) (FarmerCertList s);
  inv_verifier : index_ok verifier_address (Certificates s) (VerifierCertList s)
}.

(** An invocation that verifier, farmer and admin have authorized. *)
Definition sample_ctx : Ctx :=
  {| authorized := ["verifier"; "farmer"; "admin"];
     current_contract := "certifier";
     ledger_timestamp := 1700000000 |}.

(** A record of [tons] tons for the farmer, signed off by the verifier. *)
Definition sample_record (tons : N) : VerificationRecord :=
  {| verifier_address := "verifier"; farmer_address := "farmer";
     hectares_not_burned := 10; co2e_tons := tons; metadata_hash := [] |}.

(** The registry after a sequence of transactions. *)
Definition after (calls : list Call) (s : Env) : Env :=
  foldl (fun s c => (commit (run sample_ctx c) s).2) s calls.

(** Certificates 1 and 2, both of 50 tons. *)
Definition two_equal : Env :=
  after [CallMintCertificate 1 (sample_record 50);
         CallMintCertificate 2 (sample_record 50)] (initial ∅).

(** Certificates 1, 2 and 3 of 100, 50 and 75 tons. *)
Definition three_distinct : Env :=
  after [CallMintCertificate 1 (sample_record 100);
         CallMintCertificate 2 (sample_record 50);
         CallMintCertificate 3 (sample_record 75)] (initial ∅).

(** A registry bridged to a ledger that was never initialized. *)
Definition bridged : Env :=
  after [CallInitialize "admin"; CallSetTokenContractId "admin" "token"]
    (initial {["token" := CarbonToken.empty]}).

End RegistrySpec.

Module LedgerSpec.
Import CarbonToken TokenSpec.

(** The states the ledger can be in: the empty storage, then any public
    call that returned [Ok]. *)
Inductive reachable : State -> Prop :=
| reachable_empty : reachable empty
| reachable_call ctx c s v s' :
    reachable s -> run ctx c s = (Ok v, s') -> reachable s'.

(** The sum of the stored balances. *)
Definition total_supply (s : State) : Z :=
  map_fold (fun _ z acc => z + acc)%Z 0%Z (Balance s).

(** The amount a call mints when it succeeds. *)
Definition minted_by (c : Call) : Z :=
  match c with
  | CallMint _ amount => amount
  | _ => 0%Z
  end.

(** The sum of the amounts of the [MintEvent]s of a log. *)
Fixpoint total_minted (log : list Event) : Z :=
  match log with
  | [] => 0%Z
  | MintEvent _ amount :: rest => (amount + total_minted rest)%Z
  | _ :: rest => total_minted rest
  end.

(** The ledger after a sequence of transactions that [signers] authorize. *)
Definition ledger_after (signers : list Address) (calls : list Call) (s : State)
  : State :=
  foldl (fun s c => (commit (run (ctx_of signers) c) s).2) s calls.

(** A ledger initialized by admin, with 1000 tokens minted to alice, of
    which bob may spend 300. *)
Definition funded : State :=
  ledger_after ["admin"; "alice"]
    [CallInitialize "admin"; CallMint "alice" 1000;
     CallApprove "alice" "bob" 300] empty.

End LedgerSpec.

Module CertifierSpec.
Import CarbonCertifier RegistrySpec.

(** Every stored record is listed under the actor it names. *)
Definition index_complete (who : VerificationRecord -> Address)
  (certs : gmap N VerificationRecord) (index : gmap Address (list N)) : Prop :=
  forall id r, certs !! id = Some r ->
    exists l, index !! who r = Some l /\ id ∈ l.

(** The test of [filter_by_co2e] on one id. *)
Definition in_co2e_range (certs : gmap N VerificationRecord)
  (min_tons max_tons id : N) : bool :=
  match certs !! id with
  | Some record =>
      (min_tons <=? co2e_tons record) && (co2e_tons record <=? max_tons)
  | None => false
  end.

(** The sort key of a stored certificate. *)
Definition key_of (certs : gmap N VerificationRecord) (sort_by : SortBy)
  (id : N) : N :=
  match certs !! id with
  | Some record => sort_value sort_by id record
  | None => 0
  end.

(** The order of the keys of two ids in a direction. *)
Definition keys_in_order (certs : gmap N VerificationRecord) (sort_by : SortBy)
  (is_descending : bool) (a b : N) : Prop :=
  if is_descending then key_of certs sort_by b <= key_of certs sort_by a
  else key_of certs sort_by a <= key_of certs sort_by b.

(** The events a call publishes when it returns [Ok] from state [s]. *)
Definition emitted (ctx : Ctx) (c : Call) (s : Env) : list Event :=
  match c with
  | CallMintCertificate id r =>
      [CertificateMintedEvent id (farmer_address r) (verifier_address r)
         (co2e_tons r) (ledger_timestamp ctx)]
  | CallTransferCertificate id from to =>
      [CertificateTransferredEvent id from to]
  | CallBurnCertificate id =>
      match Certificates s !! id, CertificateOwner s !! id with
      | Some r, Some owner => [CertificateBurnedEvent id owner (co2e_tons r)]
      | _, _ => []
      end
  | _ => []
  end.

(** The principal whose authorization a call requires in state [s], for
    the entry points that call [require_auth]. *)
Definition required_signer (c : Call) (s : Env) : option Address :=
  match c with
  | CallSetTokenContractId admin _ => Some admin
  | CallMintCertificate _ r => Some (verifier_address r)
  | CallTransferCertificate _ from _ => Some from
  | CallBurnCertificate id =>
      match Certificates s !! id, CertificateOwner s !! id with
      | Some _, Some owner => Some owner
      | _, _ => None
      end
  | _ => None
  end.

(** The registry after a sequence of transactions that [signers]
    authorize. *)
Definition registry_after (signers : list Address) (calls : list Call) (s : Env)
  : Env :=
  foldl (fun s c =>
           (commit (run (mkCtx signers "certifier" 1700000000) c) s).2) s calls.

(** Certificate 1 of 100 tons, minted for the farmer and sold to the
    buyer; the registry has an admin. *)
Definition sold : Env :=
  registry_after ["verifier"; "farmer"]
    [CallInitialize "admin";
     CallMintCertificate 1 (sample_record 100);
     CallTransferCertificate 1 "farmer" "buyer"] (initial ∅).

(** A registry bridged to a ledger that it administers. *)
Definition bridged_live : Env :=
  registry_after ["admin"]
    [CallInitialize "admin"; CallSetTokenContractId "admin" "token"]
    (initial {["token" := CarbonToken.set_Admin "certifier" CarbonToken.empty]}).

End CertifierSpec.

(** * Properties *)

(** ** Equations of the monad *)

Section MonadEquations.
Context {S E : Type}.
Implicit Types (s : S).

Lemma bind_assoc {A B D} (m : M S E A) (k : A -> M S E B) (h : B -> M S E D) s :
  bind (bind m k) h s = bind m (fun x => bind (k x) h) s.
Proof. unfold bind. destruct (m s) as [[a|e|] s']; reflexivity. Qed.

Lemma bind_ret {A B} (a : A) (k : A -> M S E B) s : bind (ret a) k s = k a s.
Proof. reflexivity. Qed.

Lemma bind_gets {A B} (f : S -> A) (k : A -> M S E B) s :
  bind (gets f) k s = k (f s) s.
Proof. reflexivity. Qed.

Lemma bind_modify {B} (f : S -> S) (k : unit -> M S E B) s :
  bind (modify f) k s = k tt (f s).
Proof. reflexivity. Qed.

Lemma bind_throw {A B} (e : E) (k : A -> M S E B) s :
  bind (throw e) k s = (Err e, s).
Proof. reflexivity. Qed.

Lemma bind_panic {A B} (k : A -> M S E B) s : bind panic k s = (Panic, s).
Proof. reflexivity. Qed.

Lemma bind_fail_if {B} (c : bool) (e : E) (k : unit -> M S E B) s :
  bind (fail_if c e) k s = if c then (Err e, s) else k tt s.
Proof. by destruct c. Qed.

Lemma bind_unwrap {A B} (o : option A) (k : A -> M S E B) s :
  bind (unwrap o) k s = match o with Some a => k a s | None => (Panic, s) end.
Proof. by destruct o. Qed.

Lemma bind_ok_or {A B} (o : option A) (e : E) (k : A -> M S E B) s :
  bind (ok_or o e) k s = match o with Some a => k a s | None => (Err e, s) end.
Proof. by destruct o. Qed.

Lemma bind_require_auth {B} ctx (a : Address) (k : unit -> M S E B) s :
  bind (require_auth ctx a) k s =
    if bool_decide (a ∈ authorized ctx) then k tt s else (Panic, s).
Proof. unfold require_auth. by destruct (bool_decide _). Qed.

Lemma run_ret {A} (a : A) s : @ret S E A a s = (Ok a, s).
Proof. reflexivity. Qed.

Lemma run_gets {A} (f : S -> A) s : @gets S E A f s = (Ok (f s), s).
Proof. reflexivity. Qed.

Lemma run_modify (f : S -> S) s : @modify S E f s = (Ok tt, f s).
Proof. reflexivity. Qed.

Lemma run_unwrap {A} (o : option A) s :
  @unwrap S E A o s = match o with Some a => (Ok a, s) | None => (Panic, s) end.
Proof. by destruct o. Qed.

Lemma run_ok_or {A} (o : option A) (e : E) s :
  ok_or o e s = match o with Some a => (Ok a, s) | None => (Err e, s) end.
Proof. by destruct o. Qed.

Lemma run_require_auth ctx (a : Address) s :
  @require_auth S E ctx a s =
    if bool_decide (a ∈ authorized ctx) then (Ok tt, s) else (Panic, s).
Proof. unfold require_auth. by destruct (bool_decide _). Qed.

End MonadEquations.

(** One step of symbolic execution of a monadic term applied to a state. *)
Ltac mstep :=
  first
    [ rewrite bind_assoc | rewrite bind_ret | rewrite bind_gets
    | rewrite bind_modify | rewrite bind_throw | rewrite bind_panic
    | rewrite bind_fail_if | rewrite bind_unwrap | rewrite bind_ok_or
    | rewrite bind_require_auth | rewrite run_ret | rewrite run_gets
    | rewrite run_modify | rewrite run_unwrap | rewrite run_ok_or
    | rewrite run_require_auth ];
  cbv beta.

Ltac msimpl := repeat mstep.

Lemma in_i128_spec z : in_i128 z = true <-> (i128_MIN <= z <= i128_MAX)%Z.
Proof. unfold in_i128. rewrite andb_true_iff, !Z.leb_le. tauto. Qed.

(** ** The token ledger *)

Module TokenFacts.
Import CarbonToken TokenSpec.

Ltac fold_reads :=
  repeat match goal with
  | |- context [default 0%Z (Balance ?x !! ?a)] =>
      change (default 0%Z (Balance x !! a)) with (balance_of x a)
  | |- context [default 0%Z (Allowance ?x !! (?a, ?b))] =>
      change (default 0%Z (Allowance x !! (a, b))) with (allowance_of x a b)
  end.

Lemma balance_of_in_i128 s a : well_typed s -> in_i128 (balance_of s a) = true.
Proof.
  intros [Hb _]. unfold balance_of.
  destruct (Balance s !! a) as [z|] eqn:E; simpl; eauto.
Qed.

Lemma allowance_of_in_i128 s from spender :
  well_typed s -> in_i128 (allowance_of s from spender) = true.
Proof.
  intros [_ Ha]. unfold allowance_of.
  destruct (Allowance s !! (from, spender)) as [z|] eqn:E; simpl; eauto.
Qed.

Lemma balance_of_set_Balance k v s a :
  balance_of (set_Balance k v s) a = if decide (k = a) then v else balance_of s a.
Proof.
  unfold balance_of, set_Balance. simpl. rewrite lookup_insert.
  by destruct (decide (k = a)).
Qed.

Lemma transfer_run ctx from to amount s :
  from ∈ authorized ctx ->
  (0 < amount)%Z -> (amount <= balance_of s from)%Z ->
  in_i128 (balance_of s from - amount) = true ->
  in_i128 (balance_of (set_Balance from (balance_of s from - amount) s) to + amount) = true ->
  transfer ctx from to amount s =
    (Ok tt,
     publish (TransferEvent from to amount)
       (set_Balance to
          (balance_of (set_Balance from (balance_of s from - amount) s) to + amount)
          (set_Balance from (balance_of s from - amount) s))).
Proof.
  intros Hauth Hpos Hle Hsub Hadd.
  unfold transfer, get_balance, set_balance. msimpl.
  rewrite bool_decide_eq_true_2 by done.
  fold (balance_of s from).
  destruct (amount <=? 0)%Z eqn:E1; [apply Z.leb_le in E1; lia|].
  destruct (balance_of s from <? amount)%Z eqn:E2; [apply Z.ltb_lt in E2; lia|].
  unfold sub_i128. rewrite Hsub. msimpl.
  fold (balance_of (set_Balance from (balance_of s from - amount) s) to).
  unfold add_i128. rewrite Hadd. by msimpl.
Qed.

(** C10. A transfer of [m] from an address to itself, with
    [0 < m <= balance], returns [Ok] and leaves every balance, that of
    the address included, as it was. *)
Theorem transfer_to_self_keeps_balances ctx (s : State) (a : Address) (m : Z) :
  well_typed s ->
  a ∈ authorized ctx ->
  (0 < m <= balance_of s a)%Z ->
  exists s', transfer ctx a a m s = (Ok tt, s') /\
    forall b, balance_of s' b = balance_of s b.
Proof.
  intros Hwt Hauth [Hpos Hle].
  pose proof (balance_of_in_i128 s a Hwt) as Hin. apply in_i128_spec in Hin.
  assert (Hsub : in_i128 (balance_of s a - m) = true).
  { apply in_i128_spec. unfold i128_MIN, i128_MAX in *. lia. }
  assert (Hadd : in_i128
    (balance_of (set_Balance a (balance_of s a - m) s) a + m) = true).
  { rewrite balance_of_set_Balance, decide_True by done.
    apply in_i128_spec. lia. }
  eexists. split; [by apply transfer_run|].
  intros b. unfold publish. 
  change (balance_of (set_Balance a
    (balance_of (set_Balance a (balance_of s a - m) s) a + m)
    (set_Balance a (balance_of s a - m) s)) b = balance_of s b).
  rewrite !balance_of_set_Balance.
  destruct (decide (a = b)) as [->|]; [|done].
  rewrite decide_True by done. lia.
Qed.

Lemma allowance_of_set_Allowance k v s from spender :
  allowance_of (set_Allowance k v s) from spender =
    if decide (k = (from, spender)) then v else allowance_of s from spender.
Proof.
  unfold allowance_of, set_Allowance. simpl. rewrite lookup_insert.
  by destruct (decide (k = (from, spender))).
Qed.

Lemma balance_of_publish e s a : balance_of (publish e s) a = balance_of s a.
Proof. reflexivity. Qed.

Lemma balance_of_set_Allowance k v s a :
  balance_of (set_Allowance k v s) a = balance_of s a.
Proof. reflexivity. Qed.

Lemma allowance_of_publish e s a b :
  allowance_of (publish e s) a b = allowance_of s a b.
Proof. reflexivity. Qed.

Lemma allowance_of_set_Balance k v s a b :
  allowance_of (set_Balance k v s) a b = allowance_of s a b.
Proof. reflexivity. Qed.

Ltac reads :=
  rewrite ?balance_of_publish, ?balance_of_set_Allowance,
    ?allowance_of_publish, ?allowance_of_set_Balance,
    ?balance_of_set_Balance, ?allowance_of_set_Allowance.

(** [transfer_from], one guard after the other. *)
Lemma transfer_from_unfold ctx spender from to amount s :
  spender ∈ authorized ctx ->
  transfer_from ctx spender from to amount s =
    if (amount <=? 0)%Z then (Err InvalidAmount, s)
    else if (balance_of s from <? amount)%Z then (Err InsufficientBalance, s)
    else if (allowance_of s from spender <? amount)%Z
    then (Err InsufficientAllowance, s)
    else
      match sub_i128 (balance_of s from) amount with
      | None => (Panic, s)
      | Some debited =>
          let s1 := set_Balance from debited s in
          match add_i128 (balance_of s1 to) amount with
          | None => (Panic, s1)
          | Some credited =>
              let s2 := set_Balance to credited s1 in
              match sub_i128 (allowance_of s from spender) amount with
              | None => (Panic, s2)
              | Some new_allowance =>
                  (Ok tt,
                   publish (TransferEvent from to amount)
                     (set_Allowance (from, spender) new_allowance s2))
              end
          end
      end.
Proof.
  intros Hauth.
  unfold transfer_from, get_balance, set_balance, allowance. msimpl.
  rewrite bool_decide_eq_true_2 by done.
  fold (balance_of s from). fold (allowance_of s from spender).
  repeat (case_match; msimpl; fold_reads; try done).
Qed.

Lemma transfer_from_ok ctx spender from to amount s s' :
  spender ∈ authorized ctx ->
  transfer_from ctx spender from to amount s = (Ok tt, s') ->
  (0 < amount)%Z /\
  (amount <= balance_of s from)%Z /\
  (amount <= allowance_of s from spender)%Z /\
  s' = publish (TransferEvent from to amount)
         (set_Allowance (from, spender) (allowance_of s from spender - amount)
            (set_Balance to
               (balance_of (set_Balance from (balance_of s from - amount) s) to
                + amount)
               (set_Balance from (balance_of s from - amount) s))).
Proof.
  intros Hauth. rewrite transfer_from_unfold by done. cbv zeta.
  unfold sub_i128, add_i128.
  destruct (amount <=? 0)%Z eqn:E1; [done|].
  destruct (balance_of s from <? amount)%Z eqn:E2; [done|].
  destruct (allowance_of s from spender <? amount)%Z eqn:E3; [done|].
  apply Z.leb_gt in E1. apply Z.ltb_ge in E2. apply Z.ltb_ge in E3.
  repeat (case_match; try done).
  intros [= <-]. by simplify_eq.
Qed.

(** C7, as the code has it.  With the spender authorized, the guards of
    [transfer_from] are tried in the order amount, balance, allowance and
    the first that fails decides the error; a call that returns [Ok] has
    debited [from], then credited [to], and lowered the allowance of
    [(from, spender)] by exactly [amount], to a value that is not
    negative; and the call does return [Ok] when the guards pass and the
    credit fits an [i128]. *)
Theorem transfer_from_guards_in_order ctx (s : State)
  (spender from to : Address) (amount : Z) :
  spender ∈ authorized ctx ->
  let r := transfer_from ctx spender from to amount s in
  ((amount <= 0)%Z -> r = (Err InvalidAmount, s)) /\
  ((0 < amount)%Z -> (balance_of s from < amount)%Z ->
     r = (Err InsufficientBalance, s)) /\
  ((0 < amount <= balance_of s from)%Z ->
   (allowance_of s from spender < amount)%Z ->
     r = (Err InsufficientAllowance, s)) /\
  (forall s', r = (Ok tt, s') ->
     allowance_of s' from spender = (allowance_of s from spender - amount)%Z /\
     (0 <= allowance_of s' from spender)%Z /\
     balance_of s' from =
       (if decide (from = to) then balance_of s from
        else balance_of s from - amount)%Z /\
     balance_of s' to =
       (if decide (from = to) then balance_of s to
        else balance_of s to + amount)%Z /\
     (forall c, c ≠ from -> c ≠ to -> balance_of s' c = balance_of s c) /\
     (forall o p, (o, p) ≠ (from, spender) ->
        allowance_of s' o p = allowance_of s o p)) /\
  (well_typed s ->
   (0 < amount <= balance_of s from)%Z ->
   (amount <= allowance_of s from spender)%Z ->
   (from ≠ to -> balance_of s to + amount <= i128_MAX)%Z ->
   exists s', r = (Ok tt, s')).
Proof.
  intros Hauth r. subst r. repeat split.
  - intros H. rewrite transfer_from_unfold by done.
    by rewrite (proj2 (Z.leb_le _ _) H).
  - intros H1 H2. rewrite transfer_from_unfold by done.
    rewrite (proj2 (Z.leb_gt _ _) H1). by rewrite (proj2 (Z.ltb_lt _ _) H2).
  - intros [H1 H2] H3. rewrite transfer_from_unfold by done.
    rewrite (proj2 (Z.leb_gt _ _) H1), (proj2 (Z.ltb_ge _ _) H2).
    by rewrite (proj2 (Z.ltb_lt _ _) H3).
  - apply transfer_from_ok in H as (_ & _ & _ & ->); [|done].
    reads. by rewrite decide_True.
  - apply transfer_from_ok in H as (_ & _ & Ha & ->); [|done].
    reads. rewrite decide_True by done. lia.
  - apply transfer_from_ok in H as (_ & _ & _ & ->); [|done].
    reads. destruct (decide (from = to)) as [->|Hne].
    + rewrite !decide_True by done. lia.
    + rewrite decide_False by done. by rewrite decide_True.
  - apply transfer_from_ok in H as (_ & _ & _ & ->); [|done].
    reads. destruct (decide (from = to)) as [->|Hne].
    + rewrite !decide_True by done. lia.
    + by rewrite decide_True.
  - intros c Hc1 Hc2.
    apply transfer_from_ok in H as (_ & _ & _ & ->); [|done].
    reads. by rewrite !decide_False.
  - intros o p Hop.
    apply transfer_from_ok in H as (_ & _ & _ & ->); [|done].
    reads. by rewrite decide_False.
  - intros Hwt [H1 H2] H3 H4.
    rewrite transfer_from_unfold by done. cbv zeta.
    rewrite (proj2 (Z.leb_gt _ _) H1), (proj2 (Z.ltb_ge _ _) H2),
      (proj2 (Z.ltb_ge _ _) H3).
    pose proof (balance_of_in_i128 s from Hwt) as Hf.
    pose proof (balance_of_in_i128 s to Hwt) as Ht.
    pose proof (allowance_of_in_i128 s from spender Hwt) as Ha.
    apply in_i128_spec in Hf, Ht, Ha.
    unfold sub_i128, add_i128.
    rewrite (proj2 (in_i128_spec (balance_of s from - amount))) 
      by (unfold i128_MIN, i128_MAX in *; lia).
    rewrite balance_of_set_Balance.
    rewrite (proj2 (in_i128_spec (_ + amount))).
    2:{ destruct (decide (from = to)) as [->|Hne];
          [|specialize (H4 Hne)]; unfold i128_MIN, i128_MAX in *; lia. }
    rewrite (proj2 (in_i128_spec (allowance_of s from spender - amount)))
      by (unfold i128_MIN, i128_MAX in *; lia).
    eauto.
Qed.

(** *** Concrete ledgers *)

Lemma transfer_to_self_witness :
  exists s', transfer (ctx_of ["alice"]) "alice" "alice" 4 alice_10 = (Ok tt, s') /\
    forall b, balance_of s' b = balance_of alice_10 b.
Proof.
  apply transfer_to_self_keeps_balances.
  - split; compute_done.
  - compute_done.
  - vm_compute. split; [reflexivity | discriminate].
Defined.

Lemma transfer_from_guards_witness :
  transfer_from (ctx_of ["bob"]) "bob" "alice" "carol" 400 alice_bob_300
    = (Err InsufficientAllowance, alice_bob_300).
Proof.
  refine (proj1 (proj2 (proj2
    (transfer_from_guards_in_order (ctx_of ["bob"]) alice_bob_300
       "bob" "alice" "carol" 400 _))) _ _).
  - compute_done.
  - vm_compute. split; [reflexivity | discriminate].
  - vm_compute. reflexivity.
Defined.

(** C7 as the specification words it: with neither balance nor allowance
    (the empty ledger), a transfer of 5 is refused for the balance, not
    for the allowance, although the allowance is below the amount. *)
Lemma transfer_from_allowance_error_counterexample :
  (allowance_of empty "alice" "bob" < 5)%Z /\
  fst (transfer_from (ctx_of ["bob"]) "bob" "alice" "carol" 5 empty)
    = Err InsufficientBalance /\
  fst (transfer_from (ctx_of ["bob"]) "bob" "alice" "carol" 5 empty)
    <> Err InsufficientAllowance.
Proof.
  split; [reflexivity|]. split; [reflexivity|]. discriminate.
Qed.

End TokenFacts.

(** ** Index lists: removal, pagination, sorting *)

Module IndexFacts.
Import CarbonCertifier RegistrySpec.

(** *** Swap-and-pop *)

(** The scan returns the position of the first occurrence. *)
Lemma find_index_Some id l k i :
  find_index id l k = Some i ->
  exists l1 l2, l = l1 ++ id :: l2 /\ i = (k + length l1)%nat /\ id ∉ l1.
Proof.
  revert k. induction l as [|x l IH]; intros k; simpl; [done|].
  destruct (N.eqb_spec x id) as [->|Hne].
  - intros [= <-]. exists [], l. simpl. split_and!; [done|lia|].
    apply not_elem_of_nil.
  - intros H. apply IH in H as (l1 & l2 & -> & -> & Hl1).
    exists (x :: l1), l2. simpl. split_and!; [done|lia|].
    rewrite not_elem_of_cons. done.
Qed.

Lemma find_index_None id l k : find_index id l k = None <-> id ∉ l.
Proof.
  revert k. induction l as [|x l IH]; intros k; simpl.
  - split; [intros _; apply not_elem_of_nil|done].
  - destruct (N.eqb_spec x id) as [->|Hne].
    + split; [done|]. intros H. exfalso. apply H. left.
    + rewrite IH, not_elem_of_cons. split; [by intros ?; split|by intros [_ ?]].
Qed.

Lemma vec_set_middle {A} (pre : list A) (x y : A) (l : list A) :
  vec_set (length pre) x (pre ++ y :: l) = Some (pre ++ x :: l).
Proof.
  unfold vec_set. rewrite bool_decide_eq_true_2.
  - f_equal. induction pre as [|z pre IH]; simpl; [done|]. by f_equal.
  - rewrite length_app. simpl. lia.
Qed.

(** Removing the element at the position of [id]. *)
Lemma swap_and_pop_middle (l1 l2 : list N) (id : N) :
  exists l', swap_and_pop (l1 ++ id :: l2) (length l1) = Some l' /\
    l1 ++ id :: l2 ≡ₚ id :: l' /\ length l' = (length l1 + length l2)%nat.
Proof.
  unfold swap_and_pop, sub_u32.
  rewrite length_app. simpl length.
  destruct (N.leb_spec 1 (N.of_nat (length l1 + S (length l2)))) as [_|?]; [|lia].
  simpl.
  replace (N.of_nat (length l1 + S (length l2)) - 1)
    with (N.of_nat (length l1 + length l2)) by lia.
  destruct (N.ltb_spec (N.of_nat (length l1)) (N.of_nat (length l1 + length l2)))
    as [Hlt|Hge].
  - (* [id] is not the last element *)
    destruct (exists_last (l:=l2)) as (l2' & last & ->).
    { intros ->. simpl in Hlt. lia. }
    rewrite Nat2N.id.
    replace (l1 ++ id :: l2' ++ [last]) with ((l1 ++ id :: l2') ++ [last])
      by (by rewrite <- app_assoc).
    rewrite lookup_app_r by (rewrite !length_app; simpl; lia).
    replace (length l1 + length (l2' ++ [last]) - length (l1 ++ id :: l2'))%nat
      with 0%nat by (rewrite !length_app; simpl; lia).
    simpl.
    replace ((l1 ++ id :: l2') ++ [last]) with (l1 ++ id :: (l2' ++ [last]))
      by (by rewrite <- app_assoc).
    rewrite vec_set_middle. simpl.
    exists (l1 ++ last :: l2'). split_and!.
    + f_equal.
      replace (l1 ++ last :: l2' ++ [last]) with ((l1 ++ last :: l2') ++ [last])
        by (by rewrite <- app_assoc).
      apply removelast_last.
    + rewrite <- Permutation_middle. constructor.
      apply Permutation_app_head. by rewrite Permutation_app_comm.
    + rewrite !length_app. simpl. lia.
  - (* [id] is the last element *)
    assert (l2 = []) as ->.
    { destruct l2; [done|]. simpl in Hge. lia. }
    simpl. exists l1. split_and!.
    + f_equal. apply removelast_last.
    + by rewrite <- Permutation_middle, app_nil_r.
    + simpl. lia.
Qed.

Lemma count_occ_Permutation (l l' : list N) (x : N) :
  l ≡ₚ l' -> count_occ N.eq_dec l x = count_occ N.eq_dec l' x.
Proof.
  induction 1; simpl; repeat case_match; congruence.
Qed.

Lemma get_index_set_index a f l s :
  get_index a f s = Some l -> set_index a f l s = s.
Proof.
  destruct s, f; unfold get_index, set_index, set_FarmerCertList,
    set_VerifierCertList; simpl; intros H; f_equal; by apply insert_id.
Qed.

(** C9. On a stored index list holding [id] exactly once,
    [remove_from_index] stores a list without [id] in which every other
    id occurs as often as before; on a list without [id] (and on an
    actor without a list) it changes nothing. *)
Theorem remove_from_index_swap_and_pop (s : Env) (actor : Address)
  (id : N) (is_farmer : bool) :
  (forall l, get_index actor is_farmer s = Some l ->
     count_occ N.eq_dec l id = 1%nat ->
     exists l',
       remove_from_index actor id is_farmer s
         = (Ok tt, set_index actor is_farmer l' s) /\
       (id ∉ l') /\
       (forall x, x <> id -> count_occ N.eq_dec l' x = count_occ N.eq_dec l x) /\
       l ≡ₚ id :: l') /\
  (forall l, get_index actor is_farmer s = Some l -> id ∉ l ->
     remove_from_index actor id is_farmer s = (Ok tt, s)) /\
  (get_index actor is_farmer s = None ->
     remove_from_index actor id is_farmer s = (Ok tt, s)).
Proof.
  split_and!.
  - intros l Hl Hcount.
    unfold remove_from_index. msimpl. rewrite Hl.
    destruct (find_index id l 0) as [i|] eqn:Hfind.
    + apply find_index_Some in Hfind as (l1 & l2 & -> & -> & Hl1).
      destruct (swap_and_pop_middle l1 l2 id) as (l' & Hsp & Hperm & _).
      simpl. msimpl. rewrite Hsp. msimpl.
      exists l'. split_and!; [done| | |done].
      * intros Hin. apply list_elem_of_In, (count_occ_In N.eq_dec) in Hin.
        { rewrite (count_occ_Permutation _ _ id Hperm) in Hcount.
          simpl in Hcount. destruct (N.eq_dec id id); [lia|done]. }
      * intros x Hx. rewrite (count_occ_Permutation _ _ x Hperm). simpl.
        by destruct (N.eq_dec id x).
    + apply find_index_None in Hfind.
      exfalso. apply Hfind. apply list_elem_of_In.
      apply (count_occ_In N.eq_dec). lia.
  - intros l Hl Hnot.
    unfold remove_from_index. msimpl. rewrite Hl.
    by rewrite (proj2 (find_index_None id l 0) Hnot).
  - intros Hl. unfold remove_from_index. msimpl. by rewrite Hl.
Qed.

(** *** Pagination *)

Lemma for_each_push (l : list N) (n a : nat) (acc : list N) :
  (a + n <= length l)%nat ->
  for_each (fun paginated i => x ← l !! i; Some (paginated ++ [x])) (seq a n) acc
    = Some (acc ++ take n (drop a l)).
Proof.
  revert a acc. induction n as [|n IH]; intros a acc Hlen; simpl.
  - by rewrite take_0, app_nil_r.
  - destruct (l !! a) as [x|] eqn:Hx.
    2:{ apply lookup_ge_None in Hx. lia. }
    simpl. rewrite IH by lia. f_equal.
    rewrite <- app_assoc. f_equal. simpl.
    rewrite (drop_S l x a Hx). done.
Qed.

(** Without overflow of [offset + limit], and always when the offset is
    past the end, the helper returns the slice and the full length. *)
Lemma paginate_cert_list_slice (all_certs : list N) (offset limit : N) :
  offset + limit <= u32_MAX \/ N.of_nat (length all_certs) <= offset ->
  paginate_cert_list all_certs offset limit =
    Some (take (N.to_nat limit) (drop (N.to_nat offset) all_certs),
          N.of_nat (length all_certs)).
Proof.
  intros H. unfold paginate_cert_list.
  destruct (N.leb_spec (N.of_nat (length all_certs)) offset) as [Hge|Hlt].
  - rewrite drop_ge by lia. by rewrite take_nil.
  - destruct H as [H|H]; [|lia].
    unfold add_u32. rewrite (proj2 (N.leb_le _ _) H). simpl.
    unfold range. rewrite for_each_push.
    2:{ lia. }
    simpl. do 2 f_equal.
    destruct (N.min_spec (offset + limit) (N.of_nat (length all_certs)))
      as [[_ ->]|[Hle ->]].
    + f_equal. lia.
    + rewrite !take_ge; [done| |]; rewrite length_drop; lia.
Qed.

Lemma paginate_cert_list_length (all_certs : list N) (offset limit : N) page total :
  paginate_cert_list all_certs offset limit = Some (page, total) ->
  total = N.of_nat (length all_certs) /\
  N.of_nat (length page) = N.min limit (N.of_nat (length all_certs) - offset).
Proof.
  unfold paginate_cert_list.
  destruct (N.leb_spec (N.of_nat (length all_certs)) offset) as [Hge|Hlt].
  - intros [= <- <-]. split; [done|]. simpl. lia.
  - unfold add_u32. destruct (N.leb_spec (offset + limit) u32_MAX) as [H|H]; [|done].
    simpl. unfold range. rewrite for_each_push by lia. simpl.
    intros [= <- <-]. split; [done|].
    rewrite length_take, length_drop. lia.
Qed.

(** *** Bubble sort *)

Lemma should_swap_false d a b : should_swap d a b = false <-> in_order d a b.
Proof.
  unfold should_swap, in_order. destruct d; rewrite N.ltb_ge; done.
Qed.

Lemma should_swap_true d a b : should_swap d a b = true -> in_order d b a.
Proof.
  unfold should_swap, in_order. destruct d; rewrite N.ltb_lt; lia.
Qed.

Lemma in_order_refl d a : in_order d a a.
Proof. unfold in_order. destruct d; lia. Qed.

Lemma in_order_trans d a b c : in_order d a b -> in_order d b c -> in_order d a c.
Proof. unfold in_order. destruct d; lia. Qed.

Lemma in_order_flip a b : in_order true a b <-> in_order false b a.
Proof. done. Qed.

Lemma for_each_cons {A} (body : A -> nat -> option A) i rest (acc : A) :
  for_each body (i :: rest) acc = body acc i ≫= for_each body rest.
Proof. reflexivity. Qed.

Lemma bubble_step_middle d pre a b r :
  bubble_step d (pre ++ a :: b :: r) (length pre) =
    Some (if should_swap d a b then pre ++ b :: a :: r else pre ++ a :: b :: r).
Proof.
  unfold bubble_step.
  rewrite (list_lookup_middle pre (b :: r) a (length pre) eq_refl).
  assert ((pre ++ a :: b :: r) !! (length pre + 1)%nat = Some b) as ->.
  { replace (pre ++ a :: b :: r) with ((pre ++ [a]) ++ b :: r)
      by (by rewrite <- app_assoc).
    apply list_lookup_middle. rewrite length_app. simpl. lia. }
  cbn [mbind option_bind].
  destruct (should_swap d a b) eqn:Hswap; [|done].
  rewrite vec_set_middle. cbn [mbind option_bind].
  replace (pre ++ b :: b :: r) with ((pre ++ [b]) ++ b :: r)
    by (by rewrite <- app_assoc).
  replace (length pre + 1)%nat with (length (pre ++ [b]))
    by (rewrite !length_app; simpl; lia).
  rewrite vec_set_middle. by rewrite <- app_assoc.
Qed.

(** The inner loop over indices is [carry]. *)
Lemma for_each_bubble_step d m pre a l :
  (m <= length l)%nat ->
  for_each (bubble_step d) (seq (length pre) m) (pre ++ a :: l)
    = Some (pre ++ carry d m a l).
Proof.
  revert pre a l. induction m as [|m IH]; intros pre a l Hm; [done|].
  destruct l as [|b r]; [simpl in Hm; lia|].
  change (seq (length pre) (S m)) with (length pre :: seq (S (length pre)) m).
  rewrite for_each_cons, bubble_step_middle.
  change (carry d (S m) a (b :: r)) with
    (if should_swap d a b then b :: carry d m a r else a :: carry d m b r).
  simpl in Hm.
  destruct (should_swap d a b); cbn [mbind option_bind].
  - replace (pre ++ b :: a :: r) with ((pre ++ [b]) ++ a :: r)
      by (by rewrite <- app_assoc).
    replace (S (length pre)) with (length (pre ++ [b]))
      by (rewrite length_app; simpl; lia).
    rewrite IH by lia. by rewrite <- app_assoc.
  - replace (pre ++ a :: b :: r) with ((pre ++ [a]) ++ b :: r)
      by (by rewrite <- app_assoc).
    replace (S (length pre)) with (length (pre ++ [a]))
      by (rewrite length_app; simpl; lia).
    rewrite IH by lia. by rewrite <- app_assoc.
Qed.

Lemma carry_app d m a l1 l2 :
  (m <= length l1)%nat -> carry d m a (l1 ++ l2) = carry d m a l1 ++ l2.
Proof.
  revert a l1. induction m as [|m IH]; intros a l1 Hm; [done|].
  destruct l1 as [|b r]; [simpl in Hm; lia|].
  simpl. destruct (should_swap d a b); simpl; f_equal; apply IH; simpl in Hm; lia.
Qed.

(** A full pass moves a greatest element to the end. *)
Lemma carry_full d a l :
  exists front mx,
    carry d (length l) a l = front ++ [mx] /\
    front ++ [mx] ≡ₚ a :: l /\
    Forall (fun x => in_order d x mx) front.
Proof.
  revert a. induction l as [|b r IH]; intros a.
  - exists [], a. simpl. split_and!; done.
  - simpl. destruct (should_swap d a b) eqn:Hswap.
    + destruct (IH a) as (front & mx & -> & Hperm & Hall).
      exists (b :: front), mx. simpl. split_and!; [done| |].
      * rewrite Hperm. apply perm_swap.
      * constructor; [|done].
        apply should_swap_true in Hswap.
        assert (a ∈ front ++ [mx]) as Ha by (rewrite Hperm; left).
        apply elem_of_app in Ha as [Ha|Ha].
        -- rewrite Forall_forall in Hall. eauto using in_order_trans.
        -- apply list_elem_of_singleton in Ha as ->. done.
    + destruct (IH b) as (front & mx & -> & Hperm & Hall).
      exists (a :: front), mx. simpl. split_and!; [done| |].
      * by rewrite Hperm.
      * constructor; [|done].
        apply should_swap_false in Hswap.
        assert (b ∈ front ++ [mx]) as Hb by (rewrite Hperm; left).
        apply elem_of_app in Hb as [Hb|Hb].
        -- rewrite Forall_forall in Hall. eauto using in_order_trans.
        -- apply list_elem_of_singleton in Hb as ->. done.
Qed.

Lemma bubble_pass_settles d pairs i cur :
  (i < length pairs)%nat -> settled d pairs i cur ->
  exists cur', bubble_pass d (length pairs) cur i = Some cur' /\
    settled d pairs (S i) cur'.
Proof.
  intros Hi (front & back & -> & Hlen & Hperm & Hsorted & Hfb).
  assert (length front = (length pairs - i)%nat) as Hfront.
  { apply Permutation_length in Hperm. rewrite length_app in Hperm. lia. }
  destruct front as [|a ft]; [simpl in Hfront; lia|].
  simpl in Hfront.
  unfold bubble_pass, range. rewrite Nat.sub_0_r.
  replace (length pairs - i - 1)%nat with (length ft) by lia.
  assert (for_each (bubble_step d) (seq 0 (length ft)) ((a :: ft) ++ back)
            = Some (carry d (length ft) a (ft ++ back))) as ->.
  { apply (for_each_bubble_step d (length ft) [] a (ft ++ back)).
    rewrite length_app. lia. }
  rewrite carry_app by done.
  destruct (carry_full d a ft) as (front' & mx & -> & Hperm' & Hall).
  exists ((front' ++ [mx]) ++ back). split; [done|].
  exists front', (mx :: back). split_and!.
  - by rewrite <- app_assoc.
  - simpl. lia.
  - rewrite Hperm'. done.
  - constructor; [done|].
    assert (mx ∈ a :: ft) as Hmx.
    { rewrite <- Hperm'. apply elem_of_app. right. left. }
    rewrite Forall_forall in Hfb. by apply Hfb.
  - rewrite Forall_forall. intros x Hx. constructor.
    + rewrite Forall_forall in Hall. by apply Hall.
    + assert (x ∈ a :: ft) as Hx'.
      { rewrite <- Hperm'. apply elem_of_app. by left. }
      rewrite Forall_forall in Hfb. by apply Hfb.
Qed.

Lemma bubble_passes_settle d pairs n i cur :
  (i + n <= length pairs)%nat -> settled d pairs i cur ->
  exists out,
    for_each (bubble_pass d (length pairs)) (seq i n) cur = Some out /\
    settled d pairs (i + n) out.
Proof.
  revert i cur. induction n as [|n IH]; intros i cur Hn Hs.
  - exists cur. by rewrite Nat.add_0_r.
  - simpl. destruct (bubble_pass_settles d pairs i cur) as (cur' & -> & Hs');
      [lia|done|].
    simpl. destruct (IH (S i) cur') as (out & -> & Hout); [lia|done|].
    exists out. split; [done|]. by replace (i + S n)%nat with (S i + n)%nat by lia.
Qed.

(** The sort returns, and what it returns is the input rearranged into
    the order of the chosen direction. *)
Lemma bubble_sort_sorts d pairs :
  exists out, bubble_sort d pairs = Some out /\
    out ≡ₚ pairs /\ StronglySorted (in_order d) out.
Proof.
  unfold bubble_sort, range. rewrite Nat.sub_0_r.
  destruct (bubble_passes_settle d pairs (length pairs) 0 pairs) as (out & -> & Hs).
  - done.
  - exists pairs, []. rewrite app_nil_r. split_and!; try done.
    + constructor.
    + rewrite Forall_forall. intros. constructor.
  - exists out. split; [done|].
    destruct Hs as (front & back & -> & Hlen & Hperm & Hsorted & _).
    assert (front = []) as ->.
    { apply Permutation_length in Hperm. rewrite length_app in Hperm.
      simpl in Hlen. destruct front; [done|simpl in Hperm; lia]. }
    done.
Qed.

Lemma NoDup_snd_inj (l : list (N * N)) (x y : N * N) :
  NoDup (l.*2) -> x ∈ l -> y ∈ l -> x.2 = y.2 -> x = y.
Proof.
  induction l as [|z l IH]; intros Hnd Hx Hy Heq; [by apply elem_of_nil in Hx|].
  rewrite fmap_cons in Hnd. apply NoDup_cons in Hnd as [Hz Hnd].
  apply elem_of_cons in Hx as [->|Hx], Hy as [->|Hy]; [done| | |by apply IH].
  - exfalso. apply Hz. rewrite Heq. by apply list_elem_of_fmap_2.
  - exfalso. apply Hz. rewrite <- Heq. by apply list_elem_of_fmap_2.
Qed.

Lemma in_order_Transitive d : Transitive (in_order d).
Proof. intros a b c. apply in_order_trans. Qed.

(** With pairwise distinct keys the two directions give mirrored lists. *)
Lemma bubble_sort_descending_reverse pairs :
  NoDup (pairs.*2) ->
  exists out, bubble_sort false pairs = Some out /\
    bubble_sort true pairs = Some (reverse out).
Proof.
  intros Hnd.
  destruct (bubble_sort_sorts false pairs) as (asc & Hasc & Hpa & Hsa).
  destruct (bubble_sort_sorts true pairs) as (desc & Hdesc & Hpd & Hsd).
  exists asc. split; [done|]. rewrite Hdesc. f_equal.
  pose proof (in_order_Transitive true).
  apply (Sorted_unique_strong (in_order true)).
  - intros x1 x2 H1 H2 H12 H21.
    apply (NoDup_snd_inj pairs); [done| | |].
    + by rewrite <- Hpd.
    + rewrite <- Hpa. by apply elem_of_reverse.
    + unfold in_order in *. lia.
  - by apply StronglySorted_Sorted.
  - apply StronglySorted_Sorted in Hsa.
    apply Sorted_reverse in Hsa. exact Hsa.
  - by rewrite Hpd, reverse_Permutation, Hpa.
Qed.

(** C8, as the code has it.  When the sort keys of the listed
    certificates are pairwise distinct, the ids sorted descending are the
    reverse of the ids sorted ascending; both sorts return. *)
Theorem sort_descending_is_reverse_of_ascending
  (certs : gmap N VerificationRecord) (cert_ids : list N) (sort_by : SortBy) :
  NoDup ((sort_pairs certs sort_by cert_ids).*2) ->
  exists ids,
    sort_certificates certs cert_ids sort_by false = Some ids /\
    sort_certificates certs cert_ids sort_by true = Some (reverse ids).
Proof.
  intros Hnd. unfold sort_certificates.
  destruct (bool_decide (length cert_ids ≤ 1)%nat) eqn:Hlen.
  - exists cert_ids. split; [done|]. f_equal.
    apply bool_decide_eq_true_1 in Hlen.
    destruct cert_ids as [|x [|y r]]; [done|done|simpl in Hlen; lia].
  - destruct (bubble_sort_descending_reverse _ Hnd) as (out & -> & ->).
    exists (out.*1). split; [done|]. simpl. by rewrite fmap_reverse.
Qed.

(** *** Concrete registries *)

Lemma sort_descending_witness :
  exists ids,
    sort_certificates (Certificates three_distinct) [1; 2; 3] Co2eTons false
      = Some ids /\
    sort_certificates (Certificates three_distinct) [1; 2; 3] Co2eTons true
      = Some (reverse ids).
Proof.
  apply sort_descending_is_reverse_of_ascending. compute_done.
Defined.

(** C8 as the specification words it: two certificates with equal keys
    come out in the same order in both directions. *)
Lemma sort_descending_ties_counterexample :
  list_certificates_by_farmer "farmer" 0 10 Co2eTons false two_equal
    = (Ok ([1; 2], 2), two_equal) /\
  list_certificates_by_farmer "farmer" 0 10 Co2eTons true two_equal
    = (Ok ([1; 2], 2), two_equal) /\
  sort_certificates (Certificates two_equal) [1; 2] Co2eTons true
    <> option_map (@reverse N)
         (sort_certificates (Certificates two_equal) [1; 2] Co2eTons false).
Proof.
  split; [by vm_compute|]. split; [by vm_compute|]. by vm_compute.
Qed.

(** C6 at an input where [offset + limit] leaves [u32]: the helper
    panics on the second page of a two-element list asked with the
    largest limit, where the slice would be the one-element page. *)
Theorem paginate_cert_list_overflow :
  paginate_cert_list [1; 2] 1 4294967295 = None /\
  list_certificates_by_verifier "verifier" 1 4294967295 two_equal
    = (Panic, two_equal) /\
  paginate_cert_list [1; 2] 1 4294967294 = Some ([2], 2).
Proof.
  split; [by vm_compute|]. split; by vm_compute.
Qed.

(** *** What [remove_from_index] stores *)

Lemma remove_id_elem_of id l : id ∈ l -> l ≡ₚ id :: remove_id id l.
Proof.
  intros Hin. unfold remove_id.
  destruct (find_index id l 0) as [i|] eqn:Hfind.
  - apply find_index_Some in Hfind as (l1 & l2 & -> & -> & _).
    change (0 + length l1)%nat with (length l1).
    destruct (swap_and_pop_middle l1 l2 id) as (l' & -> & Hperm & _). done.
  - by apply find_index_None in Hfind.
Qed.

Lemma remove_id_not_elem_of id l : id ∉ l -> remove_id id l = l.
Proof.
  intros Hnot. unfold remove_id.
  by rewrite (proj2 (find_index_None id l 0) Hnot).
Qed.

Lemma remove_from_index_run a id f s :
  remove_from_index a id f s =
    (Ok tt,
     match get_index a f s with
     | Some l => set_index a f (remove_id id l) s
     | None => s
     end).
Proof.
  unfold remove_from_index. msimpl.
  destruct (get_index a f s) as [l|] eqn:Hl; [|done].
  unfold remove_id.
  destruct (find_index id l 0) as [i|] eqn:Hfind.
  - apply find_index_Some in Hfind as (l1 & l2 & -> & -> & _).
    destruct (swap_and_pop_middle l1 l2 id) as (l' & Hsp & _).
    change (0 + length l1)%nat with (length l1).
    msimpl. rewrite Hsp. by msimpl.
  - msimpl. by rewrite get_index_set_index.
Qed.

Lemma remove_from_index_witness :
  exists l',
    remove_from_index "farmer" 1 true two_equal
      = (Ok tt, set_index "farmer" true l' two_equal) /\
    (1 ∉ l') /\
    (forall x, x <> 1 -> count_occ N.eq_dec l' x = count_occ N.eq_dec [1; 2] x) /\
    [1; 2] ≡ₚ 1 :: l'.
Proof.
  apply (proj1 (remove_from_index_swap_and_pop two_equal "farmer" 1 true) [1; 2]).
  - vm_compute. reflexivity.
  - vm_compute. reflexivity.
Defined.

End IndexFacts.

(** ** The registry *)

Module RegistryFacts.
Import CarbonCertifier RegistrySpec IndexFacts.

(** Reading a field of an updated environment. *)
Ltac fields :=
  cbn [Certificates TotalCertificates TotalCO2e FarmerCertList
       VerifierCertList CertificateOwner TokenContractId Admin events ledgers
       upd_Certificates set_TotalCertificates set_TotalCO2e set_FarmerCertList
       set_VerifierCertList upd_CertificateOwner set_TokenContractId set_Admin
       publish set_ledger get_index set_index].

(** *** The entry points, unfolded *)

Lemma invoke_contract_mint_returns ctx t to amount s :
  exists x, invoke_contract_mint ctx t to amount s
            = (Ok x, after_invoke ctx t to amount s).
Proof.
  unfold after_invoke, invoke_contract_mint.
  repeat case_match; simpl; eauto.
Qed.

Lemma after_invoke_storage ctx t to amount s :
  after_invoke ctx t to amount s = s \/
  exists l, after_invoke ctx t to amount s = set_ledger t l s.
Proof.
  unfold after_invoke, invoke_contract_mint.
  repeat case_match; simpl; eauto.
Qed.

Lemma mint_certificate_unfold ctx id r s :
  mint_certificate ctx id r s =
    if bool_decide (verifier_address r ∈ authorized ctx) then
      if hectares_not_burned r =? 0 then (Err InvalidInput, s)
      else if co2e_tons r =? 0 then (Err InvalidInput, s)
      else if bool_decide (is_Some (Certificates s !! id))
      then (Err AlreadyExists, s)
      else
        match add_u32 (default 0 (TotalCertificates s)) 1 with
        | None => (Panic, upd_Certificates <[id := r]> s)
        | Some n1 =>
            match add_u128 (default 0 (TotalCO2e s)) (co2e_tons r) with
            | None =>
                (Panic, set_TotalCertificates n1 (upd_Certificates <[id := r]> s))
            | Some n2 => (Ok tt, minted ctx id r n1 n2 s)
            end
        end
    else (Panic, s).
Proof.
  unfold mint_certificate, increment_certificate_count, add_co2e_to_total,
    add_to_index, minted, bridge.
  repeat (msimpl; fields; try case_match; try done).
  match goal with
  | |- bind (invoke_contract_mint ?c ?t ?a ?z) _ ?e = _ =>
      destruct (invoke_contract_mint_returns c t a z e) as [x Hx];
      unfold bind at 1; rewrite Hx
  end.
  by msimpl.
Qed.

Lemma bind_run {S E A B} (m : M S E A) (k : A -> M S E B) s a s' :
  m s = (Ok a, s') -> bind m k s = k a s'.
Proof. intros H. unfold bind. by rewrite H. Qed.

Lemma pruned_fields a id f s :
  Certificates (pruned a id f s) = Certificates s /\
  CertificateOwner (pruned a id f s) = CertificateOwner s /\
  TotalCertificates (pruned a id f s) = TotalCertificates s /\
  TotalCO2e (pruned a id f s) = TotalCO2e s /\
  TokenContractId (pruned a id f s) = TokenContractId s /\
  Admin (pruned a id f s) = Admin s /\
  ledgers (pruned a id f s) = ledgers s /\
  events (pruned a id f s) = events s.
Proof.
  unfold pruned. destruct (get_index a f s); [|done]. by destruct f.
Qed.

Lemma decrement_certificate_count_run s :
  decrement_certificate_count s =
    (Ok tt,
     let count := default 0 (TotalCertificates s) in
     if 0 <? count then set_TotalCertificates (count - 1) s else s).
Proof.
  unfold decrement_certificate_count. msimpl. cbv zeta.
  destruct (N.ltb_spec 0 (default 0 (TotalCertificates s))) as [H|H]; [|done].
  unfold sub_u32. rewrite (proj2 (N.leb_le _ _)) by lia. by msimpl.
Qed.

Lemma subtract_co2e_from_total_run tons s :
  subtract_co2e_from_total tons s =
    (Ok tt,
     let total := default 0 (TotalCO2e s) in
     if tons <=? total then set_TotalCO2e (total - tons) s else s).
Proof.
  unfold subtract_co2e_from_total. msimpl. cbv zeta.
  destruct (tons <=? default 0 (TotalCO2e s)) eqn:H; [|done].
  unfold sub_u128. rewrite H. by msimpl.
Qed.

Lemma burn_certificate_unfold ctx id s :
  burn_certificate ctx id s =
    match Certificates s !! id with
    | None => (Err NotFound, s)
    | Some record =>
        match CertificateOwner s !! id with
        | None => (Err NotFound, s)
        | Some owner =>
            if bool_decide (owner ∈ authorized ctx)
            then (Ok tt, burned id record owner s)
            else (Panic, s)
        end
    end.
Proof.
  unfold burn_certificate. msimpl.
  destruct (Certificates s !! id) as [record|]; [|done].
  msimpl.
  destruct (CertificateOwner s !! id) as [owner|]; [|done].
  msimpl.
  destruct (bool_decide (owner ∈ authorized ctx)); [|done].
  msimpl.
  rewrite (bind_run _ _ _ _ _ (remove_from_index_run _ _ _ _)).
  rewrite (bind_run _ _ _ _ _ (remove_from_index_run _ _ _ _)).
  rewrite (bind_run _ _ _ _ _ (decrement_certificate_count_run _)).
  rewrite (bind_run _ _ _ _ _ (subtract_co2e_from_total_run _ _)).
  msimpl. unfold burned. cbv zeta. fold (pruned (farmer_address record) id true
    (upd_Certificates (delete id) (upd_CertificateOwner (delete id) s))).
  set (s3 := pruned (farmer_address record) id true _).
  fold (pruned (verifier_address record) id false s3).
  set (s4 := pruned (verifier_address record) id false s3).
  destruct (pruned_fields (verifier_address record) id false s3)
    as (_ & _ & Hc4 & Ht4 & _).
  destruct (pruned_fields (farmer_address record) id true
    (upd_Certificates (delete id) (upd_CertificateOwner (delete id) s)))
    as (_ & _ & Hc3 & Ht3 & _).
  fold s3 in Hc3, Ht3. fold s4 in Hc4, Ht4.
  rewrite Hc4, Hc3. fields.
  assert (TotalCO2e (if 0 <? default 0 (TotalCertificates s)
            then set_TotalCertificates (default 0 (TotalCertificates s) - 1) s4
            else s4) = TotalCO2e s) as ->.
  { destruct (0 <? _); fields; by rewrite ?Ht4, ?Ht3. }
  done.
Qed.

(** *** Failing calls *)

Lemma bind_ret_Err {S E A B} (m : M S E A) (f : A -> B) s e s' :
  bind m (fun x => ret (f x)) s = (Err e, s') -> m s = (Err e, s').
Proof. unfold bind, ret. destruct (m s) as [[a|e'|] s'']; congruence. Qed.

Lemma bind_ret_Ok {S E A B} (m : M S E A) (f : A -> B) s v s' :
  bind m (fun x => ret (f x)) s = (Ok v, s') ->
  exists a, m s = (Ok a, s') /\ v = f a.
Proof.
  unfold bind, ret. destruct (m s) as [[a|e'|] s'']; [|done|done].
  intros [= <- <-]. eauto.
Qed.

(** Running a simple entry point: execute, splitting on each test. *)
Ltac mcases :=
  repeat (msimpl; fields;
          try match goal with
              | |- context [match ?x with _ => _ end] => destruct x eqn:?
              end);
  try congruence.

Lemma certifier_Err_unchanged ctx c s e s' :
  CarbonCertifier.run ctx c s = (Err e, s') -> s' = s.
Proof.
  destruct c; unfold CarbonCertifier.run.
  - unfold initialize. mcases.
  - unfold get_admin. mcases.
  - unfold set_token_contract_id. mcases.
  - intros H. apply (bind_ret_Err _ (fun _ => VUnit)) in H. revert H.
    rewrite mint_certificate_unfold. mcases.
  - unfold get_certificate_data. mcases.
  - unfold get_certificate_owner. mcases.
  - unfold transfer_certificate. mcases.
  - intros H. apply (bind_ret_Err _ (fun _ => VUnit)) in H. revert H.
    rewrite burn_certificate_unfold. mcases.
  - unfold list_certificates_by_farmer. mcases.
  - unfold list_certificates_by_verifier. mcases.
  - unfold filter_by_co2e_range. mcases.
  - unfold get_total_certificates. mcases.
  - unfold get_total_co2e. mcases.
Qed.

Lemma token_Err_unchanged ctx c s e s' :
  CarbonToken.run ctx c s = (Err e, s') -> s' = s.
Proof.
  destruct c; unfold CarbonToken.run.
  - unfold CarbonToken.initialize. mcases.
  - unfold CarbonToken.mint, CarbonToken.require_admin,
      CarbonToken.get_balance, CarbonToken.set_balance. mcases.
  - unfold CarbonToken.transfer, CarbonToken.get_balance,
      CarbonToken.set_balance. mcases.
  - unfold CarbonToken.balance, CarbonToken.get_balance. mcases.
  - unfold CarbonToken.approve. mcases.
  - unfold CarbonToken.allowance. mcases.
  - unfold CarbonToken.transfer_from, CarbonToken.get_balance,
      CarbonToken.set_balance, CarbonToken.allowance. mcases.
Qed.

(** C5. A call of a public entry point of the registry or of the ledger
    that returns an error returns it on the state it was given: every
    [Err] is raised before the first write. *)
Theorem error_leaves_state_unchanged :
  (forall ctx c s e s', CarbonCertifier.run ctx c s = (Err e, s') -> s' = s) /\
  (forall ctx c s e s', CarbonToken.run ctx c s = (Err e, s') -> s' = s).
Proof.
  split; [apply certifier_Err_unchanged | apply token_Err_unchanged].
Qed.

(** *** The bridge *)

Lemma invoke_contract_mint_ledgers ctx t to amount s1 s2 :
  ledgers s1 = ledgers s2 ->
  (invoke_contract_mint ctx t to amount s1).1
    = (invoke_contract_mint ctx t to amount s2).1.
Proof.
  intros H. unfold invoke_contract_mint. rewrite H.
  repeat case_match; done.
Qed.

Lemma invoke_contract_mint_failed ctx t to amount s err :
  (invoke_contract_mint ctx t to amount s).1 = Ok (inr err) ->
  after_invoke ctx t to amount s = s.
Proof.
  unfold after_invoke, invoke_contract_mint.
  repeat case_match; simpl; congruence.
Qed.

(** C4. With a token contract configured, a [mint_certificate] call
    that passes its own checks returns [Ok] also when the nested
    [mint] on the ledger fails (its result depends on the ledgers only,
    which the registry's own writes leave alone), and the state it
    returns holds the record, the owner, both counters and both index
    entries of the new certificate, next to ledgers that did not
    change. *)
Theorem mint_certificate_keeps_certificate_when_bridge_fails
  ctx (s : Env) (id : N) (r : VerificationRecord)
  (token_contract_id : Address) (err : InvokeError) :
  TokenContractId s = Some token_contract_id ->
  (invoke_contract_mint ctx token_contract_id (farmer_address r)
     (u128_as_i128 (co2e_tons r)) s).1 = Ok (inr err) ->
  verifier_address r ∈ authorized ctx ->
  hectares_not_burned r <> 0 -> co2e_tons r <> 0 ->
  Certificates s !! id = None ->
  default 0 (TotalCertificates s) + 1 <= u32_MAX ->
  default 0 (TotalCO2e s) + co2e_tons r <= u128_MAX ->
  exists s',
    mint_certificate ctx id r s = (Ok tt, s') /\
    commit (mint_certificate ctx id r) s = (Ok tt, s') /\
    Certificates s' !! id = Some r /\
    CertificateOwner s' !! id = Some (farmer_address r) /\
    TotalCertificates s' = Some (default 0 (TotalCertificates s) + 1) /\
    TotalCO2e s' = Some (default 0 (TotalCO2e s) + co2e_tons r) /\
    (exists l, FarmerCertList s' !! farmer_address r = Some l /\ id ∈ l) /\
    (exists l, VerifierCertList s' !! verifier_address r = Some l /\ id ∈ l) /\
    ledgers s' = ledgers s.
Proof.
  intros Htok Hfail Hauth Hh Hc Hnew Hn1 Hn2.
  assert (mint_certificate ctx id r s =
    (Ok tt, minted ctx id r (default 0 (TotalCertificates s) + 1)
              (default 0 (TotalCO2e s) + co2e_tons r) s)) as Hrun.
  { rewrite mint_certificate_unfold.
    rewrite bool_decide_eq_true_2 by done.
    rewrite (proj2 (N.eqb_neq _ _) Hh), (proj2 (N.eqb_neq _ _) Hc).
    rewrite Hnew. rewrite bool_decide_eq_false_2 by (by intros [? ?]).
    unfold add_u32, add_u128.
    by rewrite (proj2 (N.leb_le _ _) Hn1), (proj2 (N.leb_le _ _) Hn2). }
  eexists. split; [exact Hrun|]. split; [unfold commit; by rewrite Hrun|].
  unfold minted, bridge. cbv zeta. fields. rewrite Htok.
  erewrite invoke_contract_mint_failed.
  2:{ erewrite invoke_contract_mint_ledgers; [exact Hfail|done]. }
  fields. split_and!.
  - apply lookup_insert_eq.
  - apply lookup_insert_eq.
  - done.
  - done.
  - eexists. split; [apply lookup_insert_eq|]. apply elem_of_app. right. left.
  - eexists. split; [apply lookup_insert_eq|]. apply elem_of_app. right. left.
  - done.
Qed.

(** *** The invariant of the registry *)

Lemma total_co2e_of_insert certs id r :
  certs !! id = None ->
  total_co2e_of (<[id := r]> certs) = co2e_tons r + total_co2e_of certs.
Proof.
  intros H. unfold total_co2e_of.
  rewrite map_fold_insert_L; [done| |done].
  intros. lia.
Qed.

Lemma total_co2e_of_delete certs id r :
  certs !! id = Some r ->
  total_co2e_of certs = co2e_tons r + total_co2e_of (delete id certs).
Proof.
  intros H. unfold total_co2e_of.
  rewrite (map_fold_delete_L _ _ id r certs); [done| |done].
  intros. lia.
Qed.

Lemma index_ok_insert who certs index id r :
  index_ok who certs index -> certs !! id = None ->
  index_ok who (<[id := r]> certs)
    (<[who r := default [] (index !! who r) ++ [id]]> index).
Proof.
  intros Hok Hnew a l Hl.
  assert (forall a' l' id', index !! a' = Some l' -> id' ∈ l' -> id' <> id) as Hfresh.
  { intros a' l' id' Hl' Hin ->.
    destruct (Hok a' l' Hl') as [_ Hrec].
    destruct (Hrec id Hin) as (r' & Hr' & _). congruence. }
  rewrite lookup_insert in Hl. destruct (decide (who r = a)) as [<-|Hne].
  - injection Hl as <-.
    destruct (index !! who r) as [old|] eqn:Hold; simpl.
    + destruct (Hok _ _ Hold) as [Hnd Hrec]. split.
      * apply NoDup_app. split_and!; [done| |apply NoDup_singleton].
        intros x Hx Hx'. apply list_elem_of_singleton in Hx' as ->.
        by eapply Hfresh.
      * intros id' Hin. apply elem_of_app in Hin as [Hin|Hin].
        -- destruct (Hrec id' Hin) as (r' & Hr' & Hwho).
           exists r'. split; [|done].
           rewrite lookup_insert_ne; [done|]. intros <-. by eapply Hfresh.
        -- apply list_elem_of_singleton in Hin as ->.
           exists r. split; [apply lookup_insert_eq|done].
    + split; [apply NoDup_singleton|].
      intros id' Hin. apply list_elem_of_singleton in Hin as ->.
      exists r. split; [apply lookup_insert_eq|done].
  - destruct (Hok a l Hl) as [Hnd Hrec]. split; [done|].
    intros id' Hin. destruct (Hrec id' Hin) as (r' & Hr' & Hwho).
    exists r'. split; [|done].
    rewrite lookup_insert_ne; [done|]. intros <-. by eapply Hfresh.
Qed.

Lemma index_ok_delete who certs index id r :
  index_ok who certs index -> certs !! id = Some r ->
  index_ok who (delete id certs)
    (match index !! who r with
     | Some l => <[who r := remove_id id l]> index
     | None => index
     end).
Proof.
  intros Hok Hr a l Hl.
  assert (forall a' l', index !! a' = Some l' -> a' <> who r ->
            NoDup l' /\
            forall id', id' ∈ l' ->
              exists r', delete id certs !! id' = Some r' /\ who r' = a')
    as Hother.
  { intros a' l' Hl' Hne. destruct (Hok a' l' Hl') as [Hnd Hrec].
    split; [done|]. intros id' Hin.
    destruct (Hrec id' Hin) as (r' & Hr' & Hwho).
    exists r'. split; [|done].
    rewrite lookup_delete_ne; [done|]. intros <-. congruence. }
  destruct (index !! who r) as [old|] eqn:Hold.
  - rewrite lookup_insert in Hl. destruct (decide (who r = a)) as [<-|Hne].
    + injection Hl as <-. destruct (Hok _ _ Hold) as [Hnd Hrec].
      destruct (decide (id ∈ old)) as [Hin|Hnot].
      * pose proof (remove_id_elem_of id old Hin) as Hperm.
        rewrite Hperm in Hnd. apply NoDup_cons in Hnd as [Hid Hnd].
        split; [done|]. intros id' Hin'.
        destruct (Hrec id') as (r' & Hr' & Hwho).
        { rewrite Hperm. by right. }
        exists r'. split; [|done].
        rewrite lookup_delete_ne; [done|]. by intros <-.
      * rewrite remove_id_not_elem_of by done. split; [done|].
        intros id' Hin'. destruct (Hrec id' Hin') as (r' & Hr' & Hwho).
        exists r'. split; [|done].
        rewrite lookup_delete_ne; [done|]. by intros <-.
    + by apply Hother.
  - apply Hother; [done|]. intros ->. congruence.
Qed.

Lemma index_ok_removed who certs index id r l :
  index_ok who certs index -> certs !! id = Some r ->
  (match index !! who r with
   | Some l => <[who r := remove_id id l]> index
   | None => index
   end) !! who r = Some l -> id ∉ l.
Proof.
  intros Hok Hr. destruct (index !! who r) as [old|] eqn:Hold.
  - rewrite lookup_insert_eq. intros [= <-].
    destruct (Hok _ _ Hold) as [Hnd _].
    destruct (decide (id ∈ old)) as [Hin|Hnot].
    + pose proof (remove_id_elem_of id old Hin) as Hperm.
      rewrite Hperm in Hnd. by apply NoDup_cons in Hnd as [Hid _].
    + by rewrite remove_id_not_elem_of.
  - congruence.
Qed.

(** The invariant reads six storage keys only. *)
Lemma registry_inv_storage s s' :
  Certificates s' = Certificates s ->
  CertificateOwner s' = CertificateOwner s ->
  TotalCertificates s' = TotalCertificates s ->
  TotalCO2e s' = TotalCO2e s ->
  FarmerCertList s' = FarmerCertList s ->
  VerifierCertList s' = VerifierCertList s ->
  registry_inv s -> registry_inv s'.
Proof.
  intros H1 H2 H3 H4 H5 H6 [? ? ? ? ?].
  split; rewrite ?H1, ?H2, ?H3, ?H4, ?H5, ?H6; done.
Qed.

Lemma registry_inv_initial L : registry_inv (initial L).
Proof.
  split; simpl.
  - intros id. rewrite !lookup_empty. done.
  - by rewrite map_size_empty.
  - unfold total_co2e_of. by rewrite map_fold_empty.
  - intros a l H. by rewrite lookup_empty in H.
  - intros a l H. by rewrite lookup_empty in H.
Qed.

Lemma bridge_storage ctx r s :
  Certificates (bridge ctx r s) = Certificates s /\
  CertificateOwner (bridge ctx r s) = CertificateOwner s /\
  TotalCertificates (bridge ctx r s) = TotalCertificates s /\
  TotalCO2e (bridge ctx r s) = TotalCO2e s /\
  FarmerCertList (bridge ctx r s) = FarmerCertList s /\
  VerifierCertList (bridge ctx r s) = VerifierCertList s /\
  TokenContractId (bridge ctx r s) = TokenContractId s /\
  Admin (bridge ctx r s) = Admin s /\
  events (bridge ctx r s) = events s.
Proof.
  unfold bridge. destruct (TokenContractId s) as [t|] eqn:Ht; [|by split_and!].
  destruct (after_invoke_storage ctx t (farmer_address r)
              (u128_as_i128 (co2e_tons r)) s) as [->|[l ->]]; by split_and!.
Qed.

Lemma registry_inv_minted ctx id r n1 n2 s :
  registry_inv s ->
  Certificates s !! id = None ->
  add_u32 (default 0 (TotalCertificates s)) 1 = Some n1 ->
  add_u128 (default 0 (TotalCO2e s)) (co2e_tons r) = Some n2 ->
  registry_inv (minted ctx id r n1 n2 s).
Proof.
  intros [Ho Hc Ht Hf Hv] Hnew Hn1 Hn2.
  unfold add_u32 in Hn1. unfold add_u128 in Hn2.
  destruct (_ <=? u32_MAX); [|done]. destruct (_ <=? u128_MAX); [|done].
  injection Hn1 as <-. injection Hn2 as <-.
  unfold minted. cbv zeta.
  match goal with
  | |- registry_inv (publish _ (bridge _ _ ?x)) =>
      set (s6 := x);
      destruct (bridge_storage ctx r s6) as (B1 & B2 & B3 & B4 & B5 & B6 & _)
  end.
  split; fields; rewrite ?B1, ?B2, ?B3, ?B4, ?B5, ?B6; subst s6; fields.
  - intros id'. rewrite !lookup_insert.
    destruct (decide (id = id')); [by split; eauto|apply Ho].
  - rewrite map_size_insert_None by done. simpl. rewrite Hc. lia.
  - rewrite total_co2e_of_insert by done. simpl. rewrite Ht. lia.
  - by apply (index_ok_insert farmer_address).
  - by apply (index_ok_insert verifier_address).
Qed.

Lemma pruned_index a id f s :
  FarmerCertList (pruned a id f s) =
    (if f then
       match FarmerCertList s !! a with
       | Some l => <[a := remove_id id l]> (FarmerCertList s)
       | None => FarmerCertList s
       end
     else FarmerCertList s) /\
  VerifierCertList (pruned a id f s) =
    (if f then VerifierCertList s
     else
       match VerifierCertList s !! a with
       | Some l => <[a := remove_id id l]> (VerifierCertList s)
       | None => VerifierCertList s
       end).
Proof.
  unfold pruned. destruct f; simpl.
  - by destruct (FarmerCertList s !! a).
  - by destruct (VerifierCertList s !! a).
Qed.

(** The storage of the state a successful burn returns. *)
Lemma burned_storage id r owner s :
  let s' := burned id r owner s in
  Certificates s' = delete id (Certificates s) /\
  CertificateOwner s' = delete id (CertificateOwner s) /\
  TotalCertificates s' =
    (if 0 <? default 0 (TotalCertificates s)
     then Some (default 0 (TotalCertificates s) - 1) else TotalCertificates s) /\
  TotalCO2e s' =
    (if co2e_tons r <=? default 0 (TotalCO2e s)
     then Some (default 0 (TotalCO2e s) - co2e_tons r) else TotalCO2e s) /\
  FarmerCertList s' =
    match FarmerCertList s !! farmer_address r with
    | Some l => <[farmer_address r := remove_id id l]> (FarmerCertList s)
    | None => FarmerCertList s
    end /\
  VerifierCertList s' =
    match VerifierCertList s !! verifier_address r with
    | Some l => <[verifier_address r := remove_id id l]> (VerifierCertList s)
    | None => VerifierCertList s
    end.
Proof.
  unfold burned. cbv zeta.
  set (s2 := upd_Certificates (delete id) (upd_CertificateOwner (delete id) s)).
  set (s3 := pruned (farmer_address r) id true s2).
  set (s4 := pruned (verifier_address r) id false s3).
  destruct (pruned_fields (farmer_address r) id true s2)
    as (C3 & O3 & N3 & T3 & _).
  destruct (pruned_fields (verifier_address r) id false s3)
    as (C4 & O4 & N4 & T4 & _).
  destruct (pruned_index (farmer_address r) id true s2) as [F3 V3].
  destruct (pruned_index (verifier_address r) id false s3) as [F4 V4].
  fold s3 in C3, O3, N3, T3, F3, V3. fold s4 in C4, O4, N4, T4, F4, V4.
  destruct (0 <? default 0 (TotalCertificates s));
    destruct (co2e_tons r <=? default 0 (TotalCO2e s)); fields;
    rewrite ?C4, ?O4, ?N4, ?T4, ?F4, ?V4, ?C3, ?O3, ?N3, ?T3, ?F3, ?V3;
    done.
Qed.

Lemma registry_inv_burned id r owner s :
  registry_inv s ->
  Certificates s !! id = Some r ->
  registry_inv (burned id r owner s).
Proof.
  intros [Ho Hc Ht Hf Hv] Hr.
  destruct (burned_storage id r owner s) as (B1 & B2 & B3 & B4 & B5 & B6).
  assert (0 < size (Certificates s))%nat as Hsize.
  { destruct (decide (size (Certificates s) = 0%nat)) as [Hz|]; [|lia].
    apply map_size_empty_inv in Hz. rewrite Hz in Hr.
    by rewrite lookup_empty in Hr. }
  pose proof (total_co2e_of_delete _ _ _ Hr) as Hsum.
  split; rewrite ?B1, ?B2, ?B3, ?B4, ?B5, ?B6.
  - intros id'. rewrite !lookup_delete.
    destruct (decide (id = id')); [by split; intros [? ?]|apply Ho].
  - rewrite map_size_delete_Some by eauto.
    destruct (N.ltb_spec 0 (default 0 (TotalCertificates s))); simpl; lia.
  - destruct (N.leb_spec (co2e_tons r) (default 0 (TotalCO2e s))); simpl; lia.
  - by apply (index_ok_delete farmer_address).
  - by apply (index_ok_delete verifier_address).
Qed.

(** Every call that returns [Ok] keeps the invariant. *)
Lemma registry_inv_call ctx c s v s' :
  registry_inv s -> CarbonCertifier.run ctx c s = (Ok v, s') -> registry_inv s'.
Proof.
  intros Hinv. destruct c; unfold CarbonCertifier.run.
  - unfold initialize. mcases. intros [= <- <-].
    by apply (registry_inv_storage s).
  - unfold get_admin. mcases.
  - unfold set_token_contract_id. mcases. intros [= <- <-].
    by apply (registry_inv_storage s).
  - intros H. apply (bind_ret_Ok _ (fun _ => VUnit)) in H as ([] & H & _).
    revert H. rewrite mint_certificate_unfold.
    destruct (bool_decide (_ ∈ _)); [|done].
    destruct (_ =? 0); [done|]. destruct (_ =? 0); [done|].
    destruct (bool_decide (is_Some _)) eqn:Hnew; [done|].
    destruct (add_u32 _ 1) as [n1|] eqn:Hn1; [|done].
    destruct (add_u128 _ _) as [n2|] eqn:Hn2; [|done].
    intros [= <-]. apply registry_inv_minted; try done.
    apply bool_decide_eq_false_1 in Hnew.
    destruct (Certificates s !! certificate_id); [|done].
    exfalso. apply Hnew. eauto.
  - unfold get_certificate_data. mcases.
  - unfold get_certificate_owner. mcases.
  - unfold transfer_certificate. mcases. intros [= <- <-].
    destruct Hinv as [Ho Hc Ht Hf Hv]. split; fields; try done.
    intros id. rewrite lookup_insert.
    destruct (decide (certificate_id = id)) as [<-|]; [|apply Ho].
    split; [intros _; apply Ho; eauto|eauto].
  - intros H. apply (bind_ret_Ok _ (fun _ => VUnit)) in H as ([] & H & _).
    revert H. rewrite burn_certificate_unfold.
    destruct (Certificates s !! certificate_id) as [r|] eqn:Hr; [|done].
    destruct (CertificateOwner s !! certificate_id) as [owner|]; [|done].
    destruct (bool_decide (_ ∈ _)); [|done].
    intros [= <-]. by apply registry_inv_burned.
  - unfold list_certificates_by_farmer. mcases.
  - unfold list_certificates_by_verifier. mcases.
  - unfold filter_by_co2e_range. mcases.
  - unfold get_total_certificates. mcases.
  - unfold get_total_co2e. mcases.
Qed.

Lemma reachable_registry_inv s : reachable s -> registry_inv s.
Proof.
  induction 1 as [L|ctx c s v s' _ IH Hrun|a l s _ IH].
  - apply registry_inv_initial.
  - by eapply registry_inv_call.
  - by apply (registry_inv_storage s).
Qed.

(** *** The claims on reachable states *)

(** C1. In every reachable state of the registry (so after any
    sequence of successful mints and burns from the empty registry),
    [get_total_certificates] returns the number of stored records and
    [get_total_co2e] the sum of their [co2e_tons]; and the guards of the
    two decrements hold for every stored record, so that a burn never
    leaves a counter at its floor instead of subtracting. *)
Theorem counters_match_records (s : Env) :
  reachable s ->
  get_total_certificates s = (Ok (N.of_nat (size (Certificates s))), s) /\
  get_total_co2e s = (Ok (total_co2e_of (Certificates s)), s) /\
  (forall id r, Certificates s !! id = Some r ->
     0 < default 0 (TotalCertificates s) /\
     co2e_tons r <= default 0 (TotalCO2e s)).
Proof.
  intros Hs. destruct (reachable_registry_inv s Hs) as [_ Hc Ht _ _].
  unfold get_total_certificates, get_total_co2e, gets. rewrite Hc, Ht.
  split_and!; [done|done|]. intros id r Hr. split.
  - destruct (decide (size (Certificates s) = 0%nat)) as [Hz|]; [|lia].
    apply map_size_empty_inv in Hz. rewrite Hz in Hr.
    by rewrite lookup_empty in Hr.
  - rewrite (total_co2e_of_delete _ _ _ Hr). lia.
Qed.

(** C2. In every reachable state of the registry and for every id, the
    owner map has an entry for the id exactly when the record store has
    one. *)
Theorem owner_iff_record (s : Env) (id : N) :
  reachable s ->
  (is_Some (CertificateOwner s !! id) <-> is_Some (Certificates s !! id)).
Proof.
  intros Hs. by destruct (reachable_registry_inv s Hs) as [Ho _ _ _ _].
Qed.

(** C3. In a reachable state holding certificate [id], a burn that its
    current owner authorizes returns [Ok], and in the state it returns
    [get_certificate_data id] and [get_certificate_owner id] fail with
    [NotFound] and no index list, of a farmer or of a verifier, holds
    [id]. *)
Theorem burn_certificate_removes_certificate ctx (s : Env) (id : N)
  (r : VerificationRecord) (owner : Address) :
  reachable s ->
  Certificates s !! id = Some r ->
  CertificateOwner s !! id = Some owner ->
  owner ∈ authorized ctx ->
  exists s',
    burn_certificate ctx id s = (Ok tt, s') /\
    get_certificate_data id s' = (Err NotFound, s') /\
    get_certificate_owner id s' = (Err NotFound, s') /\
    (forall l, FarmerCertList s' !! farmer_address r = Some l -> id ∉ l) /\
    (forall l, VerifierCertList s' !! verifier_address r = Some l -> id ∉ l) /\
    (forall a l, FarmerCertList s' !! a = Some l -> id ∉ l) /\
    (forall a l, VerifierCertList s' !! a = Some l -> id ∉ l).
Proof.
  intros Hs Hr Ho Hauth.
  pose proof (reachable_registry_inv s Hs) as Hinv.
  pose proof (registry_inv_burned id r owner s Hinv Hr) as Hinv'.
  destruct (burned_storage id r owner s) as (B1 & B2 & _).
  exists (burned id r owner s).
  assert (Certificates (burned id r owner s) !! id = None) as Hgone.
  { rewrite B1. apply lookup_delete_eq. }
  assert (forall who index, index_ok who (Certificates (burned id r owner s)) index ->
            forall a l, index !! a = Some l -> id ∉ l) as Habsent.
  { intros who index Hok a l Hl Hin.
    destruct (Hok a l Hl) as [_ Hrec].
    destruct (Hrec id Hin) as (r' & Hr' & _). congruence. }
  split_and!.
  - rewrite burn_certificate_unfold, Hr, Ho.
    by rewrite bool_decide_eq_true_2.
  - unfold get_certificate_data. msimpl. by rewrite Hgone.
  - unfold get_certificate_owner. msimpl. by rewrite Hgone.
  - intros l. apply (Habsent _ _ (inv_farmer _ Hinv')).
  - intros l. apply (Habsent _ _ (inv_verifier _ Hinv')).
  - apply (Habsent _ _ (inv_farmer _ Hinv')).
  - apply (Habsent _ _ (inv_verifier _ Hinv')).
Qed.

(** *** Witnesses on concrete registries *)

Lemma reachable_after calls s : reachable s -> reachable (after calls s).
Proof.
  revert s. induction calls as [|c calls IH]; intros s Hs; [done|].
  unfold after. simpl. apply IH. unfold commit.
  destruct (run sample_ctx c s) as [[v|e|] s'] eqn:Hrun; simpl; [|done|done].
  by eapply reachable_call.
Qed.

Lemma reachable_two_equal : reachable two_equal.
Proof. apply reachable_after, reachable_initial. Qed.

Lemma reachable_three_distinct : reachable three_distinct.
Proof. apply reachable_after, reachable_initial. Qed.

Lemma counters_match_records_witness :
  get_total_certificates three_distinct
    = (Ok (N.of_nat (size (Certificates three_distinct))), three_distinct) /\
  get_total_co2e three_distinct
    = (Ok (total_co2e_of (Certificates three_distinct)), three_distinct) /\
  (forall id r, Certificates three_distinct !! id = Some r ->
     0 < default 0 (TotalCertificates three_distinct) /\
     co2e_tons r <= default 0 (TotalCO2e three_distinct)).
Proof.
  apply counters_match_records. exact reachable_three_distinct.
Defined.

Lemma owner_iff_record_witness :
  is_Some (CertificateOwner two_equal !! 2)
  <-> is_Some (Certificates two_equal !! 2).
Proof.
  apply owner_iff_record. exact reachable_two_equal.
Defined.

Lemma burn_certificate_witness :
  exists s',
    burn_certificate sample_ctx 1 two_equal = (Ok tt, s') /\
    get_certificate_data 1 s' = (Err NotFound, s') /\
    get_certificate_owner 1 s' = (Err NotFound, s') /\
    (forall l, FarmerCertList s' !! "farmer" = Some l -> 1 ∉ l) /\
    (forall l, VerifierCertList s' !! "verifier" = Some l -> 1 ∉ l) /\
    (forall a l, FarmerCertList s' !! a = Some l -> 1 ∉ l) /\
    (forall a l, VerifierCertList s' !! a = Some l -> 1 ∉ l).
Proof.
  apply (burn_certificate_removes_certificate sample_ctx two_equal 1
           (sample_record 50) "farmer").
  - exact reachable_two_equal.
  - vm_compute. reflexivity.
  - vm_compute. reflexivity.
  - compute_done.
Defined.

Lemma error_leaves_state_unchanged_witness :
  (CarbonCertifier.run sample_ctx (CallBurnCertificate 7) two_equal).2
    = two_equal.
Proof.
  apply (proj1 error_leaves_state_unchanged sample_ctx (CallBurnCertificate 7)
           two_equal NotFound).
  vm_compute. reflexivity.
Defined.

Lemma mint_certificate_bridge_witness :
  exists s',
    mint_certificate sample_ctx 1 (sample_record 100) bridged = (Ok tt, s') /\
    commit (mint_certificate sample_ctx 1 (sample_record 100)) bridged
      = (Ok tt, s') /\
    Certificates s' !! 1 = Some (sample_record 100) /\
    CertificateOwner s' !! 1 = Some "farmer" /\
    TotalCertificates s' = Some (default 0 (TotalCertificates bridged) + 1) /\
    TotalCO2e s' = Some (default 0 (TotalCO2e bridged) + 100) /\
    (exists l, FarmerCertList s' !! "farmer" = Some l /\ 1 ∈ l) /\
    (exists l, VerifierCertList s' !! "verifier" = Some l /\ 1 ∈ l) /\
    ledgers s' = ledgers bridged.
Proof.
  apply (mint_certificate_keeps_certificate_when_bridge_fails sample_ctx bridged
           1 (sample_record 100) "token"
           (ContractFailed CarbonToken.NotInitialized)).
  - vm_compute. reflexivity.
  - vm_compute. reflexivity.
  - compute_done.
  - discriminate.
  - discriminate.
  - vm_compute. reflexivity.
  - vm_compute. discriminate.
  - vm_compute. discriminate.
Defined.

End RegistryFacts.

(** ** The scenarios of the step documents, run on the embedding *)

Module Scenarios.
Import CarbonCertifier RegistrySpec TokenSpec.

(** Ten certificates for one farmer; the second page of five, by id. *)
Example second_page_of_ten :
  let s :=
    after (map (fun id => CallMintCertificate id (sample_record 100))
             (N.of_nat <$> seq 1 10)) (initial ∅) in
  (list_certificates_by_farmer "farmer" 5 5 CertificateId false s).1
    = Ok ([6; 7; 8; 9; 10], 10) /\
  (get_total_certificates s).1 = Ok 10 /\
  (get_total_co2e s).1 = Ok 1000.
Proof. by vm_compute. Qed.

(** Mint then burn: the counters return to zero and the record is gone. *)
Example mint_then_burn :
  let s :=
    after [CallMintCertificate 1 (sample_record 100); CallBurnCertificate 1]
      (initial ∅) in
  (get_total_certificates s).1 = Ok 0 /\
  (get_total_co2e s).1 = Ok 0 /\
  (get_certificate_data 1 s).1 = Err NotFound.
Proof. by vm_compute. Qed.

(** Six certificates of 50 to 400 tons, filtered to [100, 300]. *)
Example filter_100_300 :
  let s :=
    after [CallMintCertificate 1 (sample_record 50);
           CallMintCertificate 2 (sample_record 100);
           CallMintCertificate 3 (sample_record 150);
           CallMintCertificate 4 (sample_record 200);
           CallMintCertificate 5 (sample_record 300);
           CallMintCertificate 6 (sample_record 400)] (initial ∅) in
  (filter_by_co2e_range "farmer" 100 300 0 10 s).1 = Ok ([2; 3; 4; 5], 4).
Proof. by vm_compute. Qed.

(** Burning the first of three certificates moves the last into its slot. *)
Example burn_reorders_index :
  FarmerCertList (after [CallBurnCertificate 1] three_distinct) !! "farmer"
    = Some [3; 2].
Proof. by vm_compute. Qed.

(** Bob spends 200 of an allowance of 300 on alice's balance of 1000. *)
Example transfer_from_200_of_300 :
  let s :=
    (CarbonToken.transfer_from (ctx_of ["bob"]) "bob" "alice" "carol" 200
       alice_bob_300).2 in
  allowance_of s "alice" "bob" = 100%Z /\
  balance_of s "alice" = 800%Z /\
  balance_of s "carol" = 200%Z.
Proof. by vm_compute. Qed.

(** A mint of 2^127 tons: the amount cast to [i128] is negative, the
    ledger refuses it, and the certificate is minted all the same. *)
Example mint_beyond_i128 :
  let ledger := CarbonToken.set_Admin "certifier" CarbonToken.empty in
  let s :=
    after [CallInitialize "admin"; CallSetTokenContractId "admin" "token";
           CallMintCertificate 1 (sample_record (2 ^ 127))]
      (initial {["token" := ledger]}) in
  (get_total_certificates s).1 = Ok 1 /\
  ledgers s !! "token" = Some ledger.
Proof. by vm_compute. Qed.

(** The bridge at work: a certificate of 100 tons credits the farmer
    with 100 tokens on a ledger administered by the registry. *)
Example bridge_mints_tokens :
  let ledger := CarbonToken.set_Admin "certifier" CarbonToken.empty in
  let s :=
    after [CallInitialize "admin"; CallSetTokenContractId "admin" "token";
           CallMintCertificate 1 (sample_record 100)]
      (initial {["token" := ledger]}) in
  (fun l => balance_of l "farmer") <$> ledgers s !! "token" = Some 100%Z /\
  (get_certificate_owner 1 s).1 = Ok "farmer".
Proof. by vm_compute. Qed.

End Scenarios.

(** ** More on the token ledger *)

Module LedgerFacts.
Import CarbonToken TokenSpec LedgerSpec TokenFacts.

(** *** The entry points, unfolded *)

Lemma initialize_unfold ctx admin s :
  initialize ctx admin s =
    match Admin s with
    | Some _ => (Err NotInitialized, s)
    | None => (Ok tt, set_Admin admin s)
    end.
Proof.
  unfold initialize. msimpl. destruct (Admin s) as [a|]; [|done].
  by rewrite bool_decide_eq_true_2 by eauto.
Qed.

Lemma mint_unfold ctx to amount s :
  mint ctx to amount s =
    match Admin s with
    | None => (Err NotInitialized, s)
    | Some admin =>
        if bool_decide (admin ∈ authorized ctx) then
          if (amount <=? 0)%Z then (Err InvalidAmount, s)
          else
            match add_i128 (balance_of s to) amount with
            | None => (Panic, s)
            | Some new_balance =>
                (Ok tt, publish (MintEvent to amount) (set_Balance to new_balance s))
            end
        else (Panic, s)
    end.
Proof.
  unfold mint, require_admin, get_balance, set_balance. msimpl.
  destruct (Admin s) as [admin|]; [|done]. msimpl.
  destruct (bool_decide (admin ∈ authorized ctx)); [|done]. msimpl.
  destruct (amount <=? 0)%Z; [done|]. msimpl. fold_reads.
  destruct (add_i128 (balance_of s to) amount); by msimpl.
Qed.

Lemma transfer_unfold ctx from to amount s :
  transfer ctx from to amount s =
    if bool_decide (from ∈ authorized ctx) then
      if (amount <=? 0)%Z then (Err InvalidAmount, s)
      else if (balance_of s from <? amount)%Z then (Err InsufficientBalance, s)
      else
        match sub_i128 (balance_of s from) amount with
        | None => (Panic, s)
        | Some debited =>
            let s1 := set_Balance from debited s in
            match add_i128 (balance_of s1 to) amount with
            | None => (Panic, s1)
            | Some credited =>
                (Ok tt,
                 publish (TransferEvent from to amount) (set_Balance to credited s1))
            end
        end
    else (Panic, s).
Proof.
  unfold transfer, get_balance, set_balance. msimpl.
  destruct (bool_decide (from ∈ authorized ctx)); [|done]. msimpl.
  destruct (amount <=? 0)%Z; [done|]. msimpl. fold_reads.
  destruct (balance_of s from <? amount)%Z; [done|]. msimpl.
  destruct (sub_i128 (balance_of s from) amount) as [d|]; [|done]. msimpl.
  fold_reads. cbv zeta.
  destruct (add_i128 (balance_of (set_Balance from d s) to) amount); by msimpl.
Qed.

Lemma approve_unfold ctx from spender amount s :
  approve ctx from spender amount s =
    if bool_decide (from ∈ authorized ctx) then
      if (amount <? 0)%Z then (Err InvalidAmount, s)
      else
        (Ok tt,
         publish (ApprovalEvent from spender amount)
           (set_Allowance (from, spender) amount s))
    else (Panic, s).
Proof.
  unfold approve. msimpl.
  destruct (bool_decide (from ∈ authorized ctx)); [|done]. msimpl.
  destruct (amount <? 0)%Z; by msimpl.
Qed.

Lemma transfer_from_unfold_auth ctx spender from to amount s :
  transfer_from ctx spender from to amount s =
    if bool_decide (spender ∈ authorized ctx) then
      if (amount <=? 0)%Z then (Err InvalidAmount, s)
      else if (balance_of s from <? amount)%Z then (Err InsufficientBalance, s)
      else if (allowance_of s from spender <? amount)%Z
      then (Err InsufficientAllowance, s)
      else
        match sub_i128 (balance_of s from) amount with
        | None => (Panic, s)
        | Some debited =>
            let s1 := set_Balance from debited s in
            match add_i128 (balance_of s1 to) amount with
            | None => (Panic, s1)
            | Some credited =>
                let s2 := set_Balance to credited s1 in
                match sub_i128 (allowance_of s from spender) amount with
                | None => (Panic, s2)
                | Some new_allowance =>
                    (Ok tt,
                     publish (TransferEvent from to amount)
                       (set_Allowance (from, spender) new_allowance s2))
                end
            end
        end
    else (Panic, s).
Proof.
  destruct (bool_decide (spender ∈ authorized ctx)) eqn:Hauth.
  - apply bool_decide_eq_true in Hauth. by apply transfer_from_unfold.
  - unfold transfer_from. msimpl. by rewrite Hauth.
Qed.

(** *** What a successful call did *)

Lemma bind_ret_Ok' {S E A B} (m : M S E A) (f : A -> B) s v s' :
  bind m (fun x => ret (f x)) s = (Ok v, s') ->
  exists a, m s = (Ok a, s') /\ v = f a.
Proof.
  unfold bind, ret. destruct (m s) as [[a|e'|] s'']; [|done|done].
  intros [= <- <-]. eauto.
Qed.

Lemma mint_Ok ctx to amount s s' :
  mint ctx to amount s = (Ok tt, s') ->
  (exists admin, Admin s = Some admin /\ admin ∈ authorized ctx) /\
  (0 < amount)%Z /\
  in_i128 (balance_of s to + amount) = true /\
  s' = publish (MintEvent to amount)
         (set_Balance to (balance_of s to + amount) s).
Proof.
  rewrite mint_unfold. unfold add_i128.
  destruct (Admin s) as [admin|]; [|done].
  destruct (bool_decide (admin ∈ authorized ctx)) eqn:Hauth; [|done].
  destruct (amount <=? 0)%Z eqn:Hamount; [done|].
  destruct (in_i128 (balance_of s to + amount)) eqn:Hin; [|done].
  intros [= <-]. apply bool_decide_eq_true in Hauth. apply Z.leb_gt in Hamount.
  split_and!; eauto.
Qed.

Lemma transfer_Ok ctx from to amount s s' :
  transfer ctx from to amount s = (Ok tt, s') ->
  from ∈ authorized ctx /\
  (0 < amount <= balance_of s from)%Z /\
  in_i128 (balance_of (set_Balance from (balance_of s from - amount) s) to
           + amount) = true /\
  s' = publish (TransferEvent from to amount)
         (set_Balance to
            (balance_of (set_Balance from (balance_of s from - amount) s) to
             + amount)
            (set_Balance from (balance_of s from - amount) s)).
Proof.
  rewrite transfer_unfold. unfold add_i128, sub_i128. cbv zeta.
  destruct (bool_decide (from ∈ authorized ctx)) eqn:Hauth; [|done].
  destruct (amount <=? 0)%Z eqn:Hamount; [done|].
  destruct (balance_of s from <? amount)%Z eqn:Hbal; [done|].
  destruct (in_i128 (balance_of s from - amount)); [|done].
  destruct (in_i128 _) eqn:Hin; [|done].
  intros [= <-]. apply bool_decide_eq_true in Hauth.
  apply Z.leb_gt in Hamount. apply Z.ltb_ge in Hbal. done.
Qed.

Lemma transfer_from_Ok_in_i128 ctx spender from to amount s s' :
  transfer_from ctx spender from to amount s = (Ok tt, s') ->
  in_i128 (balance_of (set_Balance from (balance_of s from - amount) s) to
           + amount) = true.
Proof.
  rewrite transfer_from_unfold_auth. unfold add_i128, sub_i128. cbv zeta.
  repeat (case_match; try done).
  by simplify_eq.
Qed.

Lemma approve_Ok ctx from spender amount s s' :
  approve ctx from spender amount s = (Ok tt, s') ->
  from ∈ authorized ctx /\ (0 <= amount)%Z /\
  s' = publish (ApprovalEvent from spender amount)
         (set_Allowance (from, spender) amount s).
Proof.
  rewrite approve_unfold.
  destruct (bool_decide (from ∈ authorized ctx)) eqn:Hauth; [|done].
  destruct (amount <? 0)%Z eqn:Hamount; [done|].
  intros [= <-]. apply bool_decide_eq_true in Hauth.
  apply Z.ltb_ge in Hamount. done.
Qed.

Lemma transfer_from_Ok ctx spender from to amount s s' :
  transfer_from ctx spender from to amount s = (Ok tt, s') ->
  spender ∈ authorized ctx /\
  (0 < amount)%Z /\
  (amount <= balance_of s from)%Z /\
  (amount <= allowance_of s from spender)%Z /\
  s' = publish (TransferEvent from to amount)
         (set_Allowance (from, spender) (allowance_of s from spender - amount)
            (set_Balance to
               (balance_of (set_Balance from (balance_of s from - amount) s) to
                + amount)
               (set_Balance from (balance_of s from - amount) s))).
Proof.
  intros H.
  assert (spender ∈ authorized ctx) as Hauth.
  { rewrite transfer_from_unfold_auth in H.
    destruct (bool_decide (spender ∈ authorized ctx)) eqn:Hauth; [|done].
    by apply bool_decide_eq_true in Hauth. }
  split; [done|]. by apply (transfer_from_ok ctx).
Qed.

(** The state a call that returned [Ok] leaves, by entry point. *)
Lemma run_Ok ctx c s v s' :
  run ctx c s = (Ok v, s') ->
  match c with
  | CallInitialize admin => Admin s = None /\ s' = set_Admin admin s
  | CallMint to amount => mint ctx to amount s = (Ok tt, s')
  | CallTransfer from to amount => transfer ctx from to amount s = (Ok tt, s')
  | CallBalance _ => s' = s
  | CallApprove from spender amount =>
      approve ctx from spender amount s = (Ok tt, s')
  | CallAllowance _ _ => s' = s
  | CallTransferFrom spender from to amount =>
      transfer_from ctx spender from to amount s = (Ok tt, s')
  end.
Proof.
  destruct c; unfold run; intros H.
  - apply (bind_ret_Ok' _ (fun _ => VUnit)) in H as ([] & H & _).
    rewrite initialize_unfold in H. destruct (Admin s); [done|].
    by injection H as <-.
  - by apply (bind_ret_Ok' _ (fun _ => VUnit)) in H as ([] & H & _).
  - by apply (bind_ret_Ok' _ (fun _ => VUnit)) in H as ([] & H & _).
  - apply (bind_ret_Ok' _ VAmount) in H as (z & H & _).
    unfold balance, get_balance, gets in H. by injection H.
  - by apply (bind_ret_Ok' _ (fun _ => VUnit)) in H as ([] & H & _).
  - apply (bind_ret_Ok' _ VAmount) in H as (z & H & _).
    unfold allowance, gets in H. by injection H.
  - by apply (bind_ret_Ok' _ (fun _ => VUnit)) in H as ([] & H & _).
Qed.

(** *** The supply *)

Lemma total_supply_set_Balance k v s :
  total_supply (set_Balance k v s) = (total_supply s - balance_of s k + v)%Z.
Proof.
  unfold total_supply, balance_of, set_Balance. simpl.
  assert (forall (j1 j2 : Address) (z1 z2 y : Z),
            (z1 + (z2 + y) = z2 + (z1 + y))%Z) as Hcomm by (intros; lia).
  rewrite <- (insert_delete_eq (Balance s)).
  rewrite map_fold_insert_L; [|by intros; apply Hcomm|apply lookup_delete_eq].
  destruct (Balance s !! k) as [z|] eqn:Hk; simpl.
  - rewrite (map_fold_delete_L _ _ k z (Balance s)); [lia| |done].
    intros. apply Hcomm; done.
  - rewrite delete_id by done. lia.
Qed.

Lemma total_supply_publish e s : total_supply (publish e s) = total_supply s.
Proof. reflexivity. Qed.

Lemma total_supply_set_Allowance k v s :
  total_supply (set_Allowance k v s) = total_supply s.
Proof. reflexivity. Qed.

Lemma total_supply_set_Admin a s : total_supply (set_Admin a s) = total_supply s.
Proof. reflexivity. Qed.

Lemma total_minted_app log e :
  total_minted (log ++ [e]) =
    (total_minted log + match e with MintEvent _ a => a | _ => 0 end)%Z.
Proof.
  induction log as [|x log IH]; simpl.
  - destruct e; lia.
  - destruct x; rewrite IH; lia.
Qed.

Lemma supply_delta ctx (c : Call) (s : State) v s' :
  run ctx c s = (Ok v, s') ->
  total_supply s' = (total_supply s + minted_by c)%Z.
Proof.
  intros H. apply run_Ok in H. destruct c; simpl.
  - destruct H as [_ ->]. rewrite total_supply_set_Admin. lia.
  - apply mint_Ok in H as (_ & _ & _ & ->).
    rewrite total_supply_publish, total_supply_set_Balance. lia.
  - apply transfer_Ok in H as (_ & _ & _ & ->).
    rewrite total_supply_publish, !total_supply_set_Balance.
    rewrite !balance_of_set_Balance. destruct (decide (from = to)); lia.
  - subst. lia.
  - apply approve_Ok in H as (_ & _ & ->).
    rewrite total_supply_publish, total_supply_set_Allowance. lia.
  - subst. lia.
  - apply transfer_from_Ok in H as (_ & _ & _ & _ & ->).
    rewrite total_supply_publish, total_supply_set_Allowance,
      !total_supply_set_Balance.
    rewrite !balance_of_set_Balance. destruct (decide (from = to)); lia.
Qed.

(** X5. Every successful call of the ledger changes the sum of the
    balances by the amount it mints: [mint] adds its amount, every other
    entry point, [transfer] and [transfer_from] included, conserves the
    supply. *)
Theorem supply_changes_by_mint_only ctx (c : Call) (s : State) v s' :
  run ctx c s = (Ok v, s') ->
  total_supply s' = (total_supply s + minted_by c)%Z.
Proof. apply supply_delta. Qed.

(** *** Administration *)

(** X1. [initialize] asks for no authorization: on a ledger without an
    admin it succeeds in any invocation and stores the admin.  Once an
    admin is stored, [initialize] returns [NotInitialized] and no
    successful call of any entry point changes the admin. *)
Theorem ledger_admin_set_once ctx (s : State) (admin : Address) :
  (Admin s = None -> initialize ctx admin s = (Ok tt, set_Admin admin s)) /\
  (forall a, Admin s = Some a ->
     initialize ctx admin s = (Err NotInitialized, s)) /\
  (forall a c v s', Admin s = Some a -> run ctx c s = (Ok v, s') ->
     Admin s' = Some a).
Proof.
  split_and!.
  - intros H. by rewrite initialize_unfold, H.
  - intros a H. by rewrite initialize_unfold, H.
  - intros a c v s' Ha H. apply run_Ok in H. destruct c.
    + destruct H as [H _]. congruence.
    + by apply mint_Ok in H as (_ & _ & _ & ->).
    + by apply transfer_Ok in H as (_ & _ & _ & ->).
    + by subst.
    + by apply approve_Ok in H as (_ & _ & ->).
    + by subst.
    + by apply transfer_from_Ok in H as (_ & _ & _ & _ & ->).
Qed.

(** X2. [mint] returns [NotInitialized] on a ledger without an admin,
    traps when the stored admin has not authorized the invocation, and
    returns [InvalidAmount] for an amount that is not positive.  When it
    returns [Ok] the stored admin had authorized it, the balance of [to]
    grew by exactly the amount, no other balance and no allowance
    changed, and one [MintEvent] was appended to the log. *)
Theorem mint_credits_exactly ctx (s : State) (to : Address) (amount : Z) :
  (Admin s = None -> mint ctx to amount s = (Err NotInitialized, s)) /\
  (forall admin, Admin s = Some admin -> admin ∉ authorized ctx ->
     mint ctx to amount s = (Panic, s)) /\
  (forall admin, Admin s = Some admin -> admin ∈ authorized ctx ->
     (amount <= 0)%Z -> mint ctx to amount s = (Err InvalidAmount, s)) /\
  (forall s', mint ctx to amount s = (Ok tt, s') ->
     (exists admin, Admin s = Some admin /\ admin ∈ authorized ctx) /\
     balance_of s' to = (balance_of s to + amount)%Z /\
     (forall a, a <> to -> balance_of s' a = balance_of s a) /\
     (forall o p, allowance_of s' o p = allowance_of s o p) /\
     events s' = events s ++ [MintEvent to amount]).
Proof.
  split_and!.
  - intros H. by rewrite mint_unfold, H.
  - intros admin H Hno. rewrite mint_unfold, H.
    by rewrite bool_decide_eq_false_2.
  - intros admin H Hyes Hle. rewrite mint_unfold, H.
    rewrite bool_decide_eq_true_2 by done.
    by rewrite (proj2 (Z.leb_le _ _) Hle).
  - intros s' H. apply mint_Ok in H as (Hadmin & _ & _ & ->).
    split_and!; [done| | |done|done].
    + reads. by rewrite decide_True.
    + intros a Ha. reads. by rewrite decide_False.
Qed.

(** X3. [transfer] traps unless [from] authorized the invocation; then
    it returns [InvalidAmount] for an amount that is not positive and
    [InsufficientBalance] for a positive amount above the balance of
    [from].  When it returns [Ok] between two different addresses,
    [from] lost exactly the amount, [to] gained it, and no other balance
    and no allowance changed. *)
Theorem transfer_moves_exactly ctx (s : State) (from to : Address) (amount : Z) :
  (from ∉ authorized ctx -> transfer ctx from to amount s = (Panic, s)) /\
  (from ∈ authorized ctx -> (amount <= 0)%Z ->
     transfer ctx from to amount s = (Err InvalidAmount, s)) /\
  (from ∈ authorized ctx -> (0 < amount)%Z -> (balance_of s from < amount)%Z ->
     transfer ctx from to amount s = (Err InsufficientBalance, s)) /\
  (forall s', transfer ctx from to amount s = (Ok tt, s') -> from <> to ->
     balance_of s' from = (balance_of s from - amount)%Z /\
     balance_of s' to = (balance_of s to + amount)%Z /\
     (forall a, a <> from -> a <> to -> balance_of s' a = balance_of s a) /\
     (forall o p, allowance_of s' o p = allowance_of s o p)).
Proof.
  split_and!.
  - intros Hno. rewrite transfer_unfold. by rewrite bool_decide_eq_false_2.
  - intros Hyes Hle. rewrite transfer_unfold.
    rewrite bool_decide_eq_true_2 by done.
    by rewrite (proj2 (Z.leb_le _ _) Hle).
  - intros Hyes Hpos Hlt. rewrite transfer_unfold.
    rewrite bool_decide_eq_true_2 by done.
    rewrite (proj2 (Z.leb_gt _ _) Hpos).
    by rewrite (proj2 (Z.ltb_lt _ _) Hlt).
  - intros s' H Hne. apply transfer_Ok in H as (_ & _ & _ & ->).
    split_and!.
    + reads. rewrite decide_False by done. by rewrite decide_True.
    + reads. rewrite decide_True by done. by rewrite decide_False.
    + intros a H1 H2. reads. by rewrite !decide_False.
    + done.
Qed.

(** X4. [approve] does not look at the balance of the owner and
    overwrites: after two approvals of the same spender the allowance is
    the second amount, whatever the first was; a negative amount is
    refused with [InvalidAmount]; balances are never touched. *)
Theorem approve_overwrites ctx (s : State) (from spender : Address) (a b : Z) :
  from ∈ authorized ctx ->
  ((a < 0)%Z -> approve ctx from spender a s = (Err InvalidAmount, s)) /\
  ((0 <= a)%Z -> (0 <= b)%Z ->
   exists s1 s2,
     approve ctx from spender a s = (Ok tt, s1) /\
     approve ctx from spender b s1 = (Ok tt, s2) /\
     allowance_of s1 from spender = a /\
     allowance_of s2 from spender = b /\
     (forall x, balance_of s2 x = balance_of s x) /\
     (forall o p, (o, p) <> (from, spender) ->
        allowance_of s2 o p = allowance_of s o p)).
Proof.
  intros Hauth. split.
  - intros Ha. rewrite approve_unfold, bool_decide_eq_true_2 by done.
    by rewrite (proj2 (Z.ltb_lt _ _) Ha).
  - intros Ha Hb. eexists _, _. split_and!.
    + rewrite approve_unfold, bool_decide_eq_true_2 by done.
      by rewrite (proj2 (Z.ltb_ge _ _) Ha).
    + rewrite approve_unfold, bool_decide_eq_true_2 by done.
      by rewrite (proj2 (Z.ltb_ge _ _) Hb).
    + reads. by rewrite decide_True.
    + reads. by rewrite decide_True.
    + done.
    + intros o p Hop. do 2 reads.
      destruct (decide ((from, spender) = (o, p))) as [E|_]; [|done].
      by rewrite E in Hop.
Qed.

(** X8. Approving zero revokes: after [approve(from, spender, 0)] no
    [transfer_from] by that spender on [from] returns [Ok], in any
    invocation, for any recipient and amount. *)
Theorem approve_zero_revokes ctx (s : State) (from spender : Address) :
  from ∈ authorized ctx ->
  exists s1,
    approve ctx from spender 0 s = (Ok tt, s1) /\
    forall ctx' to amount s2,
      transfer_from ctx' spender from to amount s1 <> (Ok tt, s2).
Proof.
  intros Hauth. eexists. split.
  - by rewrite approve_unfold, bool_decide_eq_true_2.
  - intros ctx' to amount s2 H.
    apply transfer_from_Ok in H as (_ & Hpos & _ & Hallow & _).
    revert Hallow. reads. rewrite decide_True by done. lia.
Qed.

(** *** Invariants of the reachable ledgers *)

Lemma reachable_nonneg s :
  reachable s ->
  (forall a, 0 <= balance_of s a <= i128_MAX)%Z /\
  (forall o p, 0 <= allowance_of s o p)%Z.
Proof.
  induction 1 as [|ctx c s v s' _ [IHb IHa] Hrun].
  - split; intros; unfold balance_of, allowance_of; simpl;
      rewrite lookup_empty; simpl; unfold i128_MAX; lia.
  - apply run_Ok in Hrun. destruct c.
    + destruct Hrun as [_ ->]. done.
    + apply mint_Ok in Hrun as (_ & Hpos & Hin & ->).
      apply in_i128_spec in Hin. split; [|done].
      intros a. reads. destruct (decide (to = a)) as [->|]; [|done].
      specialize (IHb a). lia.
    + apply transfer_Ok in Hrun as (_ & Hpos & Hin & ->). split; [|done].
      apply in_i128_spec in Hin. revert Hin.
      intros Hin a. revert Hin. reads.
      pose proof (IHb from). pose proof (IHb to). pose proof (IHb a).
      repeat case_decide; subst; lia.
    + by subst.
    + apply approve_Ok in Hrun as (_ & Hpos & ->). split; [done|].
      intros o p. reads. destruct (decide ((from, spender) = (o, p))); [lia|done].
    + by subst.
    + pose proof (transfer_from_Ok_in_i128 _ _ _ _ _ _ _ Hrun) as Hin.
      apply transfer_from_Ok in Hrun as (_ & Hpos & Hbal & Hallow & ->).
      apply in_i128_spec in Hin. split.
      * intros a. revert Hin. reads.
        pose proof (IHb from). pose proof (IHb to). pose proof (IHb a).
        repeat case_decide; subst; lia.
      * intros o p. do 2 reads.
        destruct (decide ((from, spender) = (o, p))); [lia|done].
Qed.

(** X6. In every reachable state of the ledger each balance lies
    between zero and the largest [i128], and each allowance is at least
    zero. *)
Theorem balances_and_allowances_never_negative (s : State) :
  reachable s ->
  (forall a, 0 <= balance_of s a <= i128_MAX)%Z /\
  (forall o p, 0 <= allowance_of s o p)%Z.
Proof. apply reachable_nonneg. Qed.

(** X7. In every reachable state of the ledger the sum of the balances
    equals the sum of the amounts of the [MintEvent]s in its log. *)
Theorem supply_equals_minted_events (s : State) :
  reachable s -> total_supply s = total_minted (events s).
Proof.
  induction 1 as [|ctx c s v s' _ IH Hrun].
  - unfold total_supply. simpl. by rewrite map_fold_empty.
  - pose proof (supply_delta ctx c s v s' Hrun) as Hsupply.
    rewrite Hsupply, IH. apply run_Ok in Hrun. destruct c; simpl.
    + destruct Hrun as [_ ->]. simpl. lia.
    + apply mint_Ok in Hrun as (_ & _ & _ & ->). simpl.
      rewrite total_minted_app. lia.
    + apply transfer_Ok in Hrun as (_ & _ & _ & ->). simpl.
      rewrite total_minted_app. lia.
    + subst. lia.
    + apply approve_Ok in Hrun as (_ & _ & ->). simpl.
      rewrite total_minted_app. lia.
    + subst. lia.
    + apply transfer_from_Ok in Hrun as (_ & _ & _ & _ & ->). simpl.
      rewrite total_minted_app. lia.
Qed.

(** *** Witnesses on concrete ledgers *)

Lemma reachable_ledger_after signers calls s :
  reachable s -> reachable (ledger_after signers calls s).
Proof.
  revert s. induction calls as [|c calls IH]; intros s Hs; [done|].
  unfold ledger_after. simpl. apply IH. unfold commit.
  destruct (run (ctx_of signers) c s) as [[v|e|] s'] eqn:Hrun; simpl;
    [|done|done].
  by eapply reachable_call.
Qed.

Lemma reachable_funded : reachable funded.
Proof. apply reachable_ledger_after, reachable_empty. Qed.

Lemma ledger_admin_set_once_witness :
  initialize (ctx_of ["mallory"]) "mallory" funded = (Err NotInitialized, funded).
Proof.
  apply (proj1 (proj2 (ledger_admin_set_once (ctx_of ["mallory"]) funded "mallory"))
           "admin").
  vm_compute. reflexivity.
Defined.

Lemma mint_credits_exactly_witness :
  mint (ctx_of ["mallory"]) "mallory" 5 funded = (Panic, funded).
Proof.
  apply (proj1 (proj2 (mint_credits_exactly (ctx_of ["mallory"]) funded "mallory" 5))
           "admin").
  - vm_compute. reflexivity.
  - compute_done.
Defined.

Lemma transfer_moves_exactly_witness :
  transfer (ctx_of ["alice"]) "alice" "carol" 1001 funded
    = (Err InsufficientBalance, funded).
Proof.
  apply (proj1 (proj2 (proj2
           (transfer_moves_exactly (ctx_of ["alice"]) funded "alice" "carol" 1001)))).
  - compute_done.
  - reflexivity.
  - vm_compute. reflexivity.
Defined.

Lemma approve_overwrites_witness :
  exists s1 s2,
    approve (ctx_of ["alice"]) "alice" "bob" 500 funded = (Ok tt, s1) /\
    approve (ctx_of ["alice"]) "alice" "bob" 20 s1 = (Ok tt, s2) /\
    allowance_of s1 "alice" "bob" = 500%Z /\
    allowance_of s2 "alice" "bob" = 20%Z /\
    (forall x, balance_of s2 x = balance_of funded x) /\
    (forall o p, (o, p) <> ("alice", "bob") ->
       allowance_of s2 o p = allowance_of funded o p).
Proof.
  apply (proj2 (approve_overwrites (ctx_of ["alice"]) funded "alice" "bob" 500 20
                  ltac:(compute_done))).
  - discriminate.
  - discriminate.
Defined.

Lemma supply_changes_by_mint_only_witness :
  total_supply
    (run (ctx_of ["alice"]) (CallTransfer "alice" "carol" 250) funded).2
  = (total_supply funded + minted_by (CallTransfer "alice" "carol" 250))%Z.
Proof.
  apply (supply_changes_by_mint_only (ctx_of ["alice"])
           (CallTransfer "alice" "carol" 250) funded VUnit).
  vm_compute. reflexivity.
Defined.

Lemma balances_never_negative_witness :
  (forall a, 0 <= balance_of funded a <= i128_MAX)%Z /\
  (forall o p, 0 <= allowance_of funded o p)%Z.
Proof.
  apply balances_and_allowances_never_negative. exact reachable_funded.
Defined.

Lemma supply_equals_minted_events_witness :
  total_supply funded = total_minted (events funded).
Proof.
  apply supply_equals_minted_events. exact reachable_funded.
Defined.

Lemma approve_zero_revokes_witness :
  exists s1,
    approve (ctx_of ["alice"]) "alice" "bob" 0 funded = (Ok tt, s1) /\
    forall ctx' to amount s2,
      transfer_from ctx' "bob" "alice" to amount s1 <> (Ok tt, s2).
Proof.
  apply approve_zero_revokes. compute_done.
Defined.

End LedgerFacts.

(** ** More on the registry *)

Module CertifierFacts.
Import CarbonCertifier RegistrySpec CertifierSpec IndexFacts RegistryFacts.

(** *** The entry points, unfolded *)

Lemma certifier_initialize_unfold ctx admin s :
  initialize ctx admin s =
    match Admin s with
    | Some _ => (Err AlreadyExists, s)
    | None => (Ok tt, set_Admin admin s)
    end.
Proof.
  unfold initialize. msimpl. destruct (Admin s) as [a|]; [|done].
  by rewrite bool_decide_eq_true_2 by eauto.
Qed.

Lemma set_token_contract_id_unfold ctx admin token_id s :
  set_token_contract_id ctx admin token_id s =
    if bool_decide (admin ∈ authorized ctx) then
      match Admin s with
      | None => (Err NotAuthorized, s)
      | Some stored_admin =>
          if bool_decide (stored_admin = admin)
          then (Ok tt, set_TokenContractId token_id s)
          else (Err NotAuthorized, s)
      end
    else (Panic, s).
Proof.
  unfold set_token_contract_id. msimpl.
  destruct (bool_decide (admin ∈ authorized ctx)); [|done]. msimpl.
  destruct (Admin s) as [stored|]; [|done]. msimpl.
  destruct (bool_decide (stored = admin)); by msimpl.
Qed.

Lemma transfer_certificate_unfold ctx id from to s :
  transfer_certificate ctx id from to s =
    if bool_decide (from ∈ authorized ctx) then
      match Certificates s !! id with
      | None => (Err NotFound, s)
      | Some _ =>
          match CertificateOwner s !! id with
          | None => (Err NotFound, s)
          | Some current_owner =>
              if bool_decide (current_owner = from)
              then (Ok tt,
                    publish (CertificateTransferredEvent id from to)
                      (upd_CertificateOwner <[id := to]> s))
              else (Err NotOwner, s)
          end
      end
    else (Panic, s).
Proof.
  unfold transfer_certificate. msimpl.
  destruct (bool_decide (from ∈ authorized ctx)); [|done]. msimpl.
  destruct (Certificates s !! id) as [r|].
  - rewrite bool_decide_eq_true_2 by eauto. msimpl.
    destruct (CertificateOwner s !! id) as [o|]; [|done]. msimpl.
    destruct (bool_decide (o = from)); by msimpl.
  - rewrite bool_decide_eq_false_2 by (by intros [? ?]). by msimpl.
Qed.

Lemma get_certificate_owner_unfold id s :
  get_certificate_owner id s =
    match Certificates s !! id with
    | None => (Err NotFound, s)
    | Some _ =>
        match CertificateOwner s !! id with
        | Some owner => (Ok owner, s)
        | None => (Err NotFound, s)
        end
    end.
Proof.
  unfold get_certificate_owner. msimpl.
  destruct (Certificates s !! id) as [r|].
  - rewrite bool_decide_eq_true_2 by eauto. msimpl.
    by destruct (CertificateOwner s !! id).
  - rewrite bool_decide_eq_false_2 by (by intros [? ?]). by msimpl.
Qed.

Lemma get_certificate_data_unfold id s :
  get_certificate_data id s =
    match Certificates s !! id with
    | Some record => (Ok record, s)
    | None => (Err NotFound, s)
    end.
Proof.
  unfold get_certificate_data. msimpl. by destruct (Certificates s !! id).
Qed.

(** A successful mint, with the values its counters moved to. *)
Lemma mint_certificate_Ok ctx id r s s' :
  mint_certificate ctx id r s = (Ok tt, s') ->
  verifier_address r ∈ authorized ctx /\
  hectares_not_burned r <> 0 /\ co2e_tons r <> 0 /\
  Certificates s !! id = None /\
  default 0 (TotalCertificates s) + 1 <= u32_MAX /\
  default 0 (TotalCO2e s) + co2e_tons r <= u128_MAX /\
  s' = minted ctx id r (default 0 (TotalCertificates s) + 1)
         (default 0 (TotalCO2e s) + co2e_tons r) s.
Proof.
  rewrite mint_certificate_unfold. unfold add_u32, add_u128.
  destruct (bool_decide (_ ∈ _)) eqn:Hauth; [|done].
  destruct (N.eqb_spec (hectares_not_burned r) 0) as [|Hh]; [done|].
  destruct (N.eqb_spec (co2e_tons r) 0) as [|Hc]; [done|].
  destruct (bool_decide (is_Some _)) eqn:Hnew; [done|].
  destruct (N.leb_spec (default 0 (TotalCertificates s) + 1) u32_MAX); [|done].
  destruct (N.leb_spec (default 0 (TotalCO2e s) + co2e_tons r) u128_MAX); [|done].
  intros [= <-]. apply bool_decide_eq_true in Hauth.
  apply bool_decide_eq_false in Hnew.
  split_and!; try done.
  destruct (Certificates s !! id); [|done]. exfalso. apply Hnew. eauto.
Qed.

Lemma mint_certificate_run ctx id r s :
  verifier_address r ∈ authorized ctx ->
  hectares_not_burned r <> 0 -> co2e_tons r <> 0 ->
  Certificates s !! id = None ->
  default 0 (TotalCertificates s) + 1 <= u32_MAX ->
  default 0 (TotalCO2e s) + co2e_tons r <= u128_MAX ->
  mint_certificate ctx id r s =
    (Ok tt, minted ctx id r (default 0 (TotalCertificates s) + 1)
              (default 0 (TotalCO2e s) + co2e_tons r) s).
Proof.
  intros Hauth Hh Hc Hnew Hn1 Hn2. rewrite mint_certificate_unfold.
  rewrite bool_decide_eq_true_2 by done.
  rewrite (proj2 (N.eqb_neq _ _) Hh), (proj2 (N.eqb_neq _ _) Hc).
  rewrite Hnew. rewrite bool_decide_eq_false_2 by (by intros [? ?]).
  unfold add_u32, add_u128.
  by rewrite (proj2 (N.leb_le _ _) Hn1), (proj2 (N.leb_le _ _) Hn2).
Qed.

(** The storage of the state a successful mint returns. *)
Lemma minted_storage ctx id r n1 n2 s :
  let s' := minted ctx id r n1 n2 s in
  Certificates s' = <[id := r]> (Certificates s) /\
  CertificateOwner s' = <[id := farmer_address r]> (CertificateOwner s) /\
  TotalCertificates s' = Some n1 /\
  TotalCO2e s' = Some n2 /\
  FarmerCertList s' =
    <[farmer_address r :=
        default [] (FarmerCertList s !! farmer_address r) ++ [id]]>
      (FarmerCertList s) /\
  VerifierCertList s' =
    <[verifier_address r :=
        default [] (VerifierCertList s !! verifier_address r) ++ [id]]>
      (VerifierCertList s) /\
  TokenContractId s' = TokenContractId s /\
  Admin s' = Admin s /\
  events s' = events s ++
    [CertificateMintedEvent id (farmer_address r) (verifier_address r)
       (co2e_tons r) (ledger_timestamp ctx)].
Proof.
  unfold minted. cbv zeta.
  match goal with
  | |- context [bridge ctx r ?x] =>
      set (s6 := x);
      destruct (bridge_storage ctx r s6)
        as (B1 & B2 & B3 & B4 & B5 & B6 & B7 & B8 & B9)
  end.
  fields. rewrite B1, B2, B3, B4, B5, B6, B7, B8, B9. by subst s6.
Qed.

(** The state a call that returned [Ok] leaves, by entry point. *)
Lemma certifier_run_Ok ctx c s v s' :
  CarbonCertifier.run ctx c s = (Ok v, s') ->
  match c with
  | CallInitialize admin => Admin s = None /\ s' = set_Admin admin s
  | CallSetTokenContractId admin token_id =>
      admin ∈ authorized ctx /\ Admin s = Some admin /\
      s' = set_TokenContractId token_id s
  | CallMintCertificate id r => mint_certificate ctx id r s = (Ok tt, s')
  | CallTransferCertificate id from to =>
      from ∈ authorized ctx /\ is_Some (Certificates s !! id) /\
      CertificateOwner s !! id = Some from /\
      s' = publish (CertificateTransferredEvent id from to)
             (upd_CertificateOwner <[id := to]> s)
  | CallBurnCertificate id =>
      exists r owner,
        Certificates s !! id = Some r /\ CertificateOwner s !! id = Some owner /\
        owner ∈ authorized ctx /\ s' = burned id r owner s
  | _ => s' = s
  end.
Proof.
  destruct c; unfold CarbonCertifier.run; intros H.
  - apply (bind_ret_Ok _ (fun _ => VUnit)) in H as ([] & H & _).
    rewrite certifier_initialize_unfold in H. destruct (Admin s); [done|].
    by injection H as <-.
  - apply (bind_ret_Ok _ VAddress) in H as (a & H & _).
    unfold get_admin in H. revert H. mcases.
  - apply (bind_ret_Ok _ (fun _ => VUnit)) in H as ([] & H & _).
    rewrite set_token_contract_id_unfold in H.
    destruct (bool_decide (admin ∈ authorized ctx)) eqn:Hauth; [|done].
    destruct (Admin s) as [stored|]; [|done].
    destruct (bool_decide (stored = admin)) eqn:Hsame; [|done].
    apply bool_decide_eq_true in Hauth, Hsame. subst.
    by injection H as <-.
  - by apply (bind_ret_Ok _ (fun _ => VUnit)) in H as ([] & H & _).
  - apply (bind_ret_Ok _ VRecord) in H as (a & H & _).
    rewrite get_certificate_data_unfold in H.
    destruct (Certificates s !! certificate_id); [|done]. by injection H.
  - apply (bind_ret_Ok _ VAddress) in H as (a & H & _).
    rewrite get_certificate_owner_unfold in H.
    repeat case_match; try done. by injection H.
  - apply (bind_ret_Ok _ (fun _ => VUnit)) in H as ([] & H & _).
    rewrite transfer_certificate_unfold in H.
    destruct (bool_decide (from ∈ authorized ctx)) eqn:Hauth; [|done].
    destruct (Certificates s !! certificate_id) as [r|]; [|done].
    destruct (CertificateOwner s !! certificate_id) as [o|]; [|done].
    destruct (bool_decide (o = from)) eqn:Hsame; [|done].
    apply bool_decide_eq_true in Hauth, Hsame. subst.
    injection H as <-. split_and!; eauto.
  - apply (bind_ret_Ok _ (fun _ => VUnit)) in H as ([] & H & _).
    rewrite burn_certificate_unfold in H.
    destruct (Certificates s !! certificate_id) as [r|]; [|done].
    destruct (CertificateOwner s !! certificate_id) as [o|]; [|done].
    destruct (bool_decide (o ∈ authorized ctx)) eqn:Hauth; [|done].
    apply bool_decide_eq_true in Hauth. injection H as <-.
    exists r, o. done.
  - apply (bind_ret_Ok _ VPage) in H as (a & H & _).
    unfold list_certificates_by_farmer in H. revert H. mcases.
  - apply (bind_ret_Ok _ VPage) in H as (a & H & _).
    unfold list_certificates_by_verifier in H. revert H. mcases.
  - apply (bind_ret_Ok _ VPage) in H as (a & H & _).
    unfold filter_by_co2e_range in H. revert H. mcases.
  - apply (bind_ret_Ok _ VCount) in H as (a & H & _).
    unfold get_total_certificates, gets in H. by injection H.
  - apply (bind_ret_Ok _ VCount) in H as (a & H & _).
    unfold get_total_co2e, gets in H. by injection H.
Qed.

Lemma burned_config id r owner s :
  TokenContractId (burned id r owner s) = TokenContractId s /\
  Admin (burned id r owner s) = Admin s /\
  ledgers (burned id r owner s) = ledgers s /\
  events (burned id r owner s) =
    events s ++ [CertificateBurnedEvent id owner (co2e_tons r)].
Proof.
  unfold burned. cbv zeta.
  set (s2 := upd_Certificates (delete id) (upd_CertificateOwner (delete id) s)).
  set (s3 := pruned (farmer_address r) id true s2).
  set (s4 := pruned (verifier_address r) id false s3).
  destruct (pruned_fields (farmer_address r) id true s2)
    as (_ & _ & _ & _ & K3 & A3 & L3 & E3).
  destruct (pruned_fields (verifier_address r) id false s3)
    as (_ & _ & _ & _ & K4 & A4 & L4 & E4).
  fold s3 in K3, A3, L3, E3. fold s4 in K4, A4, L4, E4.
  destruct (0 <? default 0 (TotalCertificates s));
    destruct (co2e_tons r <=? default 0 (TotalCO2e s)); fields;
    rewrite ?K4, ?A4, ?L4, ?E4, ?K3, ?A3, ?L3, ?E3; done.
Qed.

(** *** Administration *)

(** X9. [initialize] of the registry asks for no authorization: without
    a stored admin it succeeds in any invocation.  With an admin stored
    it returns [AlreadyExists], and no successful call of any entry
    point changes the admin. *)
Theorem registry_admin_set_once ctx (s : Env) (admin : Address) :
  (Admin s = None -> initialize ctx admin s = (Ok tt, set_Admin admin s)) /\
  (forall a, Admin s = Some a ->
     initialize ctx admin s = (Err AlreadyExists, s)) /\
  (forall a c v s', Admin s = Some a ->
     CarbonCertifier.run ctx c s = (Ok v, s') -> Admin s' = Some a).
Proof.
  split_and!.
  - intros H. by rewrite certifier_initialize_unfold, H.
  - intros a H. by rewrite certifier_initialize_unfold, H.
  - intros a c v s' Ha H. apply certifier_run_Ok in H. destruct c; try by subst.
    + destruct H as [H _]. congruence.
    + by destruct H as (_ & _ & ->).
    + apply mint_certificate_Ok in H as (_ & _ & _ & _ & _ & _ & ->).
      destruct (minted_storage ctx certificate_id record
                  (default 0 (TotalCertificates s) + 1)
                  (default 0 (TotalCO2e s) + co2e_tons record) s)
        as (_ & _ & _ & _ & _ & _ & _ & -> & _). done.
    + by destruct H as (_ & _ & _ & ->).
    + destruct H as (r & o & _ & _ & _ & ->).
      by destruct (burned_config certificate_id r o s) as (_ & -> & _).
Qed.

(** X10. [set_token_contract_id] traps unless its [admin] argument
    authorized the invocation, returns [NotAuthorized] on a registry
    without an admin and for an argument that is not the stored admin,
    and otherwise overwrites the token contract id, leaving the rest of
    the state as it was: a second call replaces the first target. *)
Theorem set_token_contract_id_admin_only ctx (s : Env)
  (admin token_id token_id' : Address) :
  (admin ∉ authorized ctx ->
     set_token_contract_id ctx admin token_id s = (Panic, s)) /\
  (admin ∈ authorized ctx -> Admin s = None ->
     set_token_contract_id ctx admin token_id s = (Err NotAuthorized, s)) /\
  (forall a, admin ∈ authorized ctx -> Admin s = Some a -> a <> admin ->
     set_token_contract_id ctx admin token_id s = (Err NotAuthorized, s)) /\
  (admin ∈ authorized ctx -> Admin s = Some admin ->
     set_token_contract_id ctx admin token_id s
       = (Ok tt, set_TokenContractId token_id s) /\
     set_token_contract_id ctx admin token_id' (set_TokenContractId token_id s)
       = (Ok tt, set_TokenContractId token_id' s)).
Proof.
  split_and!.
  - intros H. rewrite set_token_contract_id_unfold.
    by rewrite bool_decide_eq_false_2.
  - intros H Ha. rewrite set_token_contract_id_unfold.
    rewrite bool_decide_eq_true_2 by done. by rewrite Ha.
  - intros a H Ha Hne. rewrite set_token_contract_id_unfold.
    rewrite bool_decide_eq_true_2 by done. rewrite Ha.
    by rewrite bool_decide_eq_false_2.
  - intros H Ha. rewrite !set_token_contract_id_unfold.
    rewrite !bool_decide_eq_true_2 by done. fields. rewrite Ha.
    by rewrite !bool_decide_eq_true_2.
Qed.

(** *** Minting *)

(** X11. With the verifier authorized, [mint_certificate] tests the
    hectares, then the tons, then the id: zero hectares and zero tons
    give [InvalidInput] also for an id that is taken, a taken id with
    valid figures gives [AlreadyExists], and so does any valid mint
    under an id right after a successful mint under it. *)
Theorem mint_certificate_checks_in_order ctx (s : Env) (id : N)
  (r : VerificationRecord) :
  verifier_address r ∈ authorized ctx ->
  (hectares_not_burned r = 0 ->
     mint_certificate ctx id r s = (Err InvalidInput, s)) /\
  (hectares_not_burned r <> 0 -> co2e_tons r = 0 ->
     mint_certificate ctx id r s = (Err InvalidInput, s)) /\
  (hectares_not_burned r <> 0 -> co2e_tons r <> 0 ->
   is_Some (Certificates s !! id) ->
     mint_certificate ctx id r s = (Err AlreadyExists, s)) /\
  (forall r0 ctx0 s', mint_certificate ctx0 id r0 s = (Ok tt, s') ->
   hectares_not_burned r <> 0 -> co2e_tons r <> 0 ->
     mint_certificate ctx id r s' = (Err AlreadyExists, s')).
Proof.
  intros Hauth.
  assert (forall s0, hectares_not_burned r <> 0 -> co2e_tons r <> 0 ->
            is_Some (Certificates s0 !! id) ->
            mint_certificate ctx id r s0 = (Err AlreadyExists, s0)) as Hdup.
  { intros s0 Hh Hc Hin. rewrite mint_certificate_unfold.
    rewrite bool_decide_eq_true_2 by done.
    rewrite (proj2 (N.eqb_neq _ _) Hh), (proj2 (N.eqb_neq _ _) Hc).
    by rewrite bool_decide_eq_true_2. }
  split_and!.
  - intros Hh. rewrite mint_certificate_unfold.
    rewrite bool_decide_eq_true_2 by done. by rewrite Hh.
  - intros Hh Hc. rewrite mint_certificate_unfold.
    rewrite bool_decide_eq_true_2 by done.
    rewrite (proj2 (N.eqb_neq _ _) Hh). by rewrite Hc.
  - intros Hh Hc Hin. by apply Hdup.
  - intros r0 ctx0 s' Hmint Hh Hc. apply Hdup; [done|done|].
    apply mint_certificate_Ok in Hmint as (_ & _ & _ & _ & _ & _ & ->).
    destruct (minted_storage ctx0 id r0
                (default 0 (TotalCertificates s) + 1)
                (default 0 (TotalCO2e s) + co2e_tons r0) s) as (-> & _).
    rewrite lookup_insert_eq. eauto.
Qed.

(** X12. After a successful [mint_certificate id record],
    [get_certificate_data id] returns the record as given and
    [get_certificate_owner id] the farmer it names; the answers of both
    getters for every other id are what they were before. *)
Theorem mint_then_get ctx (s : Env) (id : N) (r : VerificationRecord) s' :
  mint_certificate ctx id r s = (Ok tt, s') ->
  get_certificate_data id s' = (Ok r, s') /\
  get_certificate_owner id s' = (Ok (farmer_address r), s') /\
  (forall id', id' <> id ->
     (get_certificate_data id' s').1 = (get_certificate_data id' s).1 /\
     (get_certificate_owner id' s').1 = (get_certificate_owner id' s).1).
Proof.
  intros H. apply mint_certificate_Ok in H as (_ & _ & _ & _ & _ & _ & ->).
  destruct (minted_storage ctx id r
              (default 0 (TotalCertificates s) + 1)
              (default 0 (TotalCO2e s) + co2e_tons r) s) as (HC & HO & _).
  cbv zeta in HC, HO.
  split_and!.
  - rewrite get_certificate_data_unfold, HC. by rewrite lookup_insert_eq.
  - rewrite get_certificate_owner_unfold, HC, HO. by rewrite !lookup_insert_eq.
  - intros id' Hne.
    rewrite !get_certificate_data_unfold, !get_certificate_owner_unfold, HC, HO.
    rewrite !lookup_insert_ne by done.
    split; repeat case_match; done.
Qed.

(** *** Ownership *)

(** X13. [transfer_certificate] traps unless [from] authorized the
    invocation, returns [NotFound] for an id without a record and
    [NotOwner] when the stored owner is not [from].  When it returns
    [Ok] the owner of the id is [to], and the records, the owners of the
    other ids, both counters and both indices are as they were: the
    certificate stays in the list of its farmer and enters no list of
    the new owner. *)
Theorem transfer_certificate_changes_owner_only ctx (s : Env) (id : N)
  (from to : Address) :
  (from ∉ authorized ctx ->
     transfer_certificate ctx id from to s = (Panic, s)) /\
  (from ∈ authorized ctx -> Certificates s !! id = None ->
     transfer_certificate ctx id from to s = (Err NotFound, s)) /\
  (forall owner, from ∈ authorized ctx -> is_Some (Certificates s !! id) ->
     CertificateOwner s !! id = Some owner -> owner <> from ->
     transfer_certificate ctx id from to s = (Err NotOwner, s)) /\
  (forall s', transfer_certificate ctx id from to s = (Ok tt, s') ->
     CertificateOwner s !! id = Some from /\
     CertificateOwner s' = <[id := to]> (CertificateOwner s) /\
     Certificates s' = Certificates s /\
     TotalCertificates s' = TotalCertificates s /\
     TotalCO2e s' = TotalCO2e s /\
     FarmerCertList s' = FarmerCertList s /\
     VerifierCertList s' = VerifierCertList s).
Proof.
  split_and!.
  - intros H. rewrite transfer_certificate_unfold.
    by rewrite bool_decide_eq_false_2.
  - intros H Hnone. rewrite transfer_certificate_unfold.
    rewrite bool_decide_eq_true_2 by done. by rewrite Hnone.
  - intros owner H [r Hr] Ho Hne. rewrite transfer_certificate_unfold.
    rewrite bool_decide_eq_true_2 by done. rewrite Hr, Ho.
    by rewrite bool_decide_eq_false_2.
  - intros s'. rewrite transfer_certificate_unfold.
    destruct (bool_decide (from ∈ authorized ctx)); [|done].
    destruct (Certificates s !! id); [|done].
    destruct (CertificateOwner s !! id) as [o|]; [|done].
    destruct (bool_decide (o = from)) eqn:Hsame; [|done].
    apply bool_decide_eq_true in Hsame. subst. intros [= <-]. done.
Qed.

(** X14. After a successful transfer of a certificate from [from] to a
    different address [to], its owner reads [to], a further transfer by
    [from] returns [NotOwner], and a burn that only [from] authorizes
    traps: the seller has no hold on the certificate left. *)
Theorem transfer_certificate_hands_over ctx (s : Env) (id : N)
  (from to : Address) s' :
  transfer_certificate ctx id from to s = (Ok tt, s') ->
  from <> to ->
  get_certificate_owner id s' = (Ok to, s') /\
  (forall ctx' to', from ∈ authorized ctx' ->
     transfer_certificate ctx' id from to' s' = (Err NotOwner, s')) /\
  (forall ctx', to ∉ authorized ctx' ->
     burn_certificate ctx' id s' = (Panic, s')).
Proof.
  intros H Hne. rewrite transfer_certificate_unfold in H.
  destruct (bool_decide (from ∈ authorized ctx)); [|done].
  destruct (Certificates s !! id) as [r|] eqn:Hr; [|done].
  destruct (CertificateOwner s !! id) as [o|]; [|done].
  destruct (bool_decide (o = from)); [|done].
  injection H as <-.
  split_and!.
  - rewrite get_certificate_owner_unfold. fields. rewrite Hr.
    by rewrite lookup_insert_eq.
  - intros ctx' to' Hauth. rewrite transfer_certificate_unfold.
    rewrite bool_decide_eq_true_2 by done. fields. rewrite Hr.
    rewrite lookup_insert_eq. by rewrite bool_decide_eq_false_2.
  - intros ctx' Hno. rewrite burn_certificate_unfold. fields. rewrite Hr.
    rewrite lookup_insert_eq. by rewrite bool_decide_eq_false_2.
Qed.

(** X15. [burn_certificate] looks the certificate up before it asks for
    any authorization: an unknown id gives [NotFound] in every
    invocation.  For a stored certificate the call traps unless the
    stored owner authorized it, whoever else did, and returns [Ok] when
    the owner did. *)
Theorem burn_certificate_owner_only ctx (s : Env) (id : N) :
  (Certificates s !! id = None ->
     burn_certificate ctx id s = (Err NotFound, s)) /\
  (forall r owner,
     Certificates s !! id = Some r -> CertificateOwner s !! id = Some owner ->
     (owner ∉ authorized ctx -> burn_certificate ctx id s = (Panic, s)) /\
     (owner ∈ authorized ctx ->
        burn_certificate ctx id s = (Ok tt, burned id r owner s))) /\
  (forall s', burn_certificate ctx id s = (Ok tt, s') ->
     exists owner, CertificateOwner s !! id = Some owner /\
                   owner ∈ authorized ctx).
Proof.
  split_and!.
  - intros H. by rewrite burn_certificate_unfold, H.
  - intros r owner Hr Ho. rewrite burn_certificate_unfold, Hr, Ho. split.
    + intros H. by rewrite bool_decide_eq_false_2.
    + intros H. by rewrite bool_decide_eq_true_2.
  - intros s'. rewrite burn_certificate_unfold.
    destruct (Certificates s !! id); [|done].
    destruct (CertificateOwner s !! id) as [o|]; [|done].
    destruct (bool_decide (o ∈ authorized ctx)) eqn:Hauth; [|done].
    apply bool_decide_eq_true in Hauth. eauto.
Qed.

(** *** Authorization and events *)

Lemma bind_Panic {S E A B} (m : M S E A) (k : A -> M S E B) s s' :
  m s = (Panic, s') -> bind m k s = (Panic, s').
Proof. intros H. unfold bind. by rewrite H. Qed.

(** X25. No entry point of the registry writes for a caller it did not
    authorize: when the principal whose authorization a call requires
    (the admin argument, the verifier of the record, the sender, the
    stored owner) has not authorized the invocation, the call traps on
    the state it was given. *)
Theorem unauthorized_call_traps ctx (c : Call) (s : Env) (a : Address) :
  required_signer c s = Some a -> a ∉ authorized ctx ->
  CarbonCertifier.run ctx c s = (Panic, s).
Proof.
  intros Hreq Hno. destruct c; simpl in Hreq; try done; unfold CarbonCertifier.run.
  - injection Hreq as ->. apply bind_Panic.
    rewrite set_token_contract_id_unfold. by rewrite bool_decide_eq_false_2.
  - injection Hreq as <-. apply bind_Panic.
    rewrite mint_certificate_unfold. by rewrite bool_decide_eq_false_2.
  - injection Hreq as ->. apply bind_Panic.
    rewrite transfer_certificate_unfold. by rewrite bool_decide_eq_false_2.
  - apply bind_Panic. rewrite burn_certificate_unfold.
    destruct (Certificates s !! certificate_id); [|done].
    destruct (CertificateOwner s !! certificate_id) as [o|]; [|done].
    injection Hreq as ->. by rewrite bool_decide_eq_false_2.
Qed.

(** X22. The event log of the registry only grows, by at most one event
    a call: a successful mint, transfer or burn appends its event, with
    the owner and the tons read before the burn, and every other
    successful call leaves the log as it was. *)
Theorem events_append_only ctx (c : Call) (s : Env) v s' :
  CarbonCertifier.run ctx c s = (Ok v, s') ->
  events s' = events s ++ emitted ctx c s.
Proof.
  intros H. apply certifier_run_Ok in H.
  destruct c; simpl; try (subst; by rewrite app_nil_r).
  - destruct H as [_ ->]. simpl. by rewrite app_nil_r.
  - destruct H as (_ & _ & ->). simpl. by rewrite app_nil_r.
  - apply mint_certificate_Ok in H as (_ & _ & _ & _ & _ & _ & ->).
    by destruct (minted_storage ctx certificate_id record
                (default 0 (TotalCertificates s) + 1)
                (default 0 (TotalCO2e s) + co2e_tons record) s)
      as (_ & _ & _ & _ & _ & _ & _ & _ & ->).
  - by destruct H as (_ & _ & _ & ->).
  - destruct H as (r & o & -> & -> & _ & ->).
    by destruct (burned_config certificate_id r o s) as (_ & _ & _ & ->).
Qed.

(** *** More invariants of the reachable registries *)

Lemma index_complete_insert who certs index id r :
  index_complete who certs index ->
  index_complete who (<[id := r]> certs)
    (<[who r := default [] (index !! who r) ++ [id]]> index).
Proof.
  intros Hc id' r' Hr'. rewrite lookup_insert in Hr'.
  destruct (decide (id = id')) as [<-|Hne].
  - injection Hr' as <-. rewrite lookup_insert_eq. eexists. split; [done|].
    apply elem_of_app. right. left.
  - destruct (Hc id' r' Hr') as (l & Hl & Hin).
    rewrite lookup_insert. destruct (decide (who r = who r')) as [Heq|_].
    + eexists. split; [done|]. rewrite Heq, Hl. simpl.
      apply elem_of_app. by left.
    + eauto.
Qed.

Lemma index_complete_delete who certs index id r :
  index_complete who certs index ->
  index_complete who (delete id certs)
    (match index !! who r with
     | Some l => <[who r := remove_id id l]> index
     | None => index
     end).
Proof.
  intros Hc id' r' Hr'. rewrite lookup_delete in Hr'.
  destruct (decide (id = id')) as [|Hne]; [done|].
  destruct (Hc id' r' Hr') as (l & Hl & Hin).
  destruct (index !! who r) as [old|] eqn:Hold; [|eauto].
  rewrite lookup_insert. destruct (decide (who r = who r')) as [Heq|_]; [|eauto].
  eexists. split; [done|].
  rewrite Heq in Hold. rewrite Hl in Hold. injection Hold as <-.
  destruct (decide (id ∈ l)) as [Hid|Hid].
  - pose proof (remove_id_elem_of id l Hid) as Hperm.
    rewrite Hperm in Hin. apply elem_of_cons in Hin as [->|Hin]; done.
  - by rewrite remove_id_not_elem_of.
Qed.

(** Validity of the records, bounds of the counters, completeness of
    the indices. *)
Lemma reachable_more s :
  reachable s ->
  (forall id r, Certificates s !! id = Some r ->
     hectares_not_burned r <> 0 /\ co2e_tons r <> 0) /\
  default 0 (TotalCertificates s) <= u32_MAX /\
  default 0 (TotalCO2e s) <= u128_MAX /\
  index_complete farmer_address (Certificates s) (FarmerCertList s) /\
  index_complete verifier_address (Certificates s) (VerifierCertList s).
Proof.
  induction 1 as [L|ctx c s v s' Hs (IV & IB1 & IB2 & IF & IG) Hrun
                 |a l s _ IH].
  - simpl. split_and!.
    + intros id r H. by rewrite lookup_empty in H.
    + unfold u32_MAX. lia.
    + unfold u128_MAX. lia.
    + intros id r H. by rewrite lookup_empty in H.
    + intros id r H. by rewrite lookup_empty in H.
  - apply certifier_run_Ok in Hrun. destruct c; try (by subst).
    + by destruct Hrun as [_ ->].
    + by destruct Hrun as (_ & _ & ->).
    + apply mint_certificate_Ok in Hrun as (_ & Hh & Hc & Hnew & Hn1 & Hn2 & ->).
      destruct (minted_storage ctx certificate_id record
                  (default 0 (TotalCertificates s) + 1)
                  (default 0 (TotalCO2e s) + co2e_tons record) s)
        as (-> & _ & -> & -> & -> & -> & _).
      split_and!; try done.
      * intros id r. rewrite lookup_insert.
        destruct (decide (certificate_id = id)); [by intros [= <-]|apply IV].
      * by apply (index_complete_insert farmer_address).
      * by apply (index_complete_insert verifier_address).
    + by destruct Hrun as (_ & _ & _ & ->).
    + destruct Hrun as (r & o & Hr & Ho & _ & ->).
      destruct (burned_storage certificate_id r o s)
        as (-> & _ & -> & -> & -> & ->).
      split_and!.
      * intros id r'. rewrite lookup_delete.
        destruct (decide (certificate_id = id)); [done|apply IV].
      * destruct (0 <? _); simpl; lia.
      * destruct (_ <=? _); simpl; lia.
      * by apply (index_complete_delete farmer_address).
      * by apply (index_complete_delete verifier_address).
  - done.
Qed.

(** X17. In every reachable state an id is in the list of a farmer
    exactly when a record is stored under the id and names that farmer,
    and likewise for verifiers; no list holds an id twice.  The total
    that the two listings report is therefore the number of live
    certificates of the actor. *)
Theorem index_lists_hold_exactly_the_live_certificates (s : Env) :
  reachable s ->
  (forall a id,
     (exists l, FarmerCertList s !! a = Some l /\ id ∈ l) <->
     (exists r, Certificates s !! id = Some r /\ farmer_address r = a)) /\
  (forall a id,
     (exists l, VerifierCertList s !! a = Some l /\ id ∈ l) <->
     (exists r, Certificates s !! id = Some r /\ verifier_address r = a)) /\
  (forall a l, FarmerCertList s !! a = Some l -> NoDup l) /\
  (forall a l, VerifierCertList s !! a = Some l -> NoDup l).
Proof.
  intros Hs.
  destruct (reachable_registry_inv s Hs) as [_ _ _ Hf Hv].
  destruct (reachable_more s Hs) as (_ & _ & _ & Kf & Kv).
  split_and!.
  - intros a id. split.
    + intros (l & Hl & Hin). by apply (Hf a l Hl).
    + intros (r & Hr & <-). by apply Kf.
  - intros a id. split.
    + intros (l & Hl & Hin). by apply (Hv a l Hl).
    + intros (r & Hr & <-). by apply Kv.
  - intros a l Hl. by apply (Hf a l Hl).
  - intros a l Hl. by apply (Hv a l Hl).
Qed.

(** X26. In every reachable state each stored record has hectares and
    tons above zero, the number of stored records is at most the
    largest [u32] and the sum of their tons at most the largest
    [u128]. *)
Theorem stored_records_valid_and_bounded (s : Env) :
  reachable s ->
  (forall id r, Certificates s !! id = Some r ->
     0 < hectares_not_burned r /\ 0 < co2e_tons r) /\
  N.of_nat (size (Certificates s)) <= u32_MAX /\
  total_co2e_of (Certificates s) <= u128_MAX.
Proof.
  intros Hs.
  destruct (reachable_registry_inv s Hs) as [_ Hc Ht _ _].
  destruct (reachable_more s Hs) as (V & B1 & B2 & _).
  rewrite <- Hc, <- Ht. split_and!; [|done|done].
  intros id r Hr. destruct (V id r Hr). lia.
Qed.

(** X16. A burnt id is free again.  In a reachable state, after the
    owner burns certificate [id], a mint of the same record under the
    same id succeeds; it restores the record store and both counters,
    makes the farmer of the record the owner whoever owned the
    certificate before, and leaves the farmer's list a rearrangement of
    what it was. *)
Theorem burn_then_mint_again ctx ctx' (s : Env) (id : N)
  (r : VerificationRecord) (owner : Address) :
  reachable s ->
  Certificates s !! id = Some r ->
  CertificateOwner s !! id = Some owner ->
  owner ∈ authorized ctx ->
  verifier_address r ∈ authorized ctx' ->
  exists s1 s2,
    burn_certificate ctx id s = (Ok tt, s1) /\
    mint_certificate ctx' id r s1 = (Ok tt, s2) /\
    Certificates s2 = Certificates s /\
    (get_total_certificates s2).1 = (get_total_certificates s).1 /\
    (get_total_co2e s2).1 = (get_total_co2e s).1 /\
    CertificateOwner s2 !! id = Some (farmer_address r) /\
    (exists l l2,
       FarmerCertList s !! farmer_address r = Some l /\
       FarmerCertList s2 !! farmer_address r = Some l2 /\ l2 ≡ₚ l).
Proof.
  intros Hs Hr Ho Hauth Hauth'.
  destruct (reachable_registry_inv s Hs) as [_ Hc Ht Hf _].
  destruct (reachable_more s Hs) as (V & B1 & B2 & Kf & _).
  destruct (V id r Hr) as [Hh Hco].
  assert (0 < default 0 (TotalCertificates s)) as Hpos.
  { rewrite Hc. destruct (decide (size (Certificates s) = 0%nat)) as [Hz|]; [|lia].
    apply map_size_empty_inv in Hz. rewrite Hz in Hr.
    by rewrite lookup_empty in Hr. }
  assert (co2e_tons r <= default 0 (TotalCO2e s)) as Hle.
  { rewrite Ht, (total_co2e_of_delete _ _ _ Hr). lia. }
  destruct (burned_storage id r owner s) as (B1' & B2' & B3' & B4' & B5' & B6').
  cbv zeta in B1', B2', B3', B4', B5', B6'.
  rewrite (proj2 (N.ltb_lt _ _) Hpos) in B3'.
  rewrite (proj2 (N.leb_le _ _) Hle) in B4'.
  set (s1 := burned id r owner s) in *.
  set (s2 := minted ctx' id r (default 0 (TotalCertificates s1) + 1)
               (default 0 (TotalCO2e s1) + co2e_tons r) s1).
  destruct (minted_storage ctx' id r (default 0 (TotalCertificates s1) + 1)
              (default 0 (TotalCO2e s1) + co2e_tons r) s1)
    as (M1 & M2 & M3 & M4 & M5 & _).
  cbv zeta in M1, M2, M3, M4, M5. fold s2 in M1, M2, M3, M4, M5.
  exists s1, s2. split_and!.
  - rewrite burn_certificate_unfold, Hr, Ho. by rewrite bool_decide_eq_true_2.
  - apply mint_certificate_run; try done.
    + rewrite B1'. apply lookup_delete_eq.
    + rewrite B3'. simpl. lia.
    + rewrite B4'. simpl. lia.
  - rewrite M1, B1', insert_delete_eq. by apply insert_id.
  - unfold get_total_certificates, gets. cbn [fst].
    rewrite M3, B3'. simpl. f_equal. lia.
  - unfold get_total_co2e, gets. cbn [fst].
    rewrite M4, B4'. simpl. f_equal. lia.
  - rewrite M2. apply lookup_insert_eq.
  - destruct (Kf id r Hr) as (l & Hl & Hin).
    exists l. eexists. split; [done|].
    rewrite M5, lookup_insert_eq. split; [done|].
    rewrite B5', Hl, lookup_insert_eq. simpl.
    rewrite (remove_id_elem_of id l Hin) at 2.
    by rewrite Permutation_app_comm.
Qed.

(** *** Listings *)

Lemma filter_by_co2e_filter certs ids lo hi :
  filter_by_co2e certs ids lo hi =
    filter (fun id => Is_true (in_co2e_range certs lo hi id)) ids.
Proof.
  induction ids as [|id ids IH]; [done|].
  simpl. rewrite filter_cons, <- IH.
  destruct (decide _) as [H|H]; unfold in_co2e_range in H;
    destruct (certs !! id) as [r|]; simpl in H; try done;
    destruct ((lo <=? co2e_tons r) && (co2e_tons r <=? hi)); simpl in H;
    try done.
Qed.

Lemma in_co2e_range_empty certs lo hi id :
  hi < lo -> in_co2e_range certs lo hi id = false.
Proof.
  intros H. unfold in_co2e_range. destruct (certs !! id) as [r|]; [|done].
  destruct (N.leb_spec lo (co2e_tons r)), (N.leb_spec (co2e_tons r) hi);
    simpl; try done. lia.
Qed.

Lemma filter_by_co2e_range_unfold a lo hi offset limit s :
  filter_by_co2e_range a lo hi offset limit s =
    unwrap (paginate_cert_list
              (filter_by_co2e (Certificates s)
                 (default [] (FarmerCertList s !! a)) lo hi) offset limit) s.
Proof. unfold filter_by_co2e_range. by msimpl. Qed.

(** X18. [filter_by_co2e_range] pages through the ids of the farmer's
    list whose stored record has its tons between the bounds, both
    included, in the order of the list; the total it reports is the
    number of those matches, not the size of the farmer's list.  The
    state is returned as it was. *)
Theorem filter_by_co2e_range_pages_the_matches (s : Env) (a : Address)
  (lo hi offset limit : N) :
  offset + limit <= u32_MAX ->
  filter_by_co2e_range a lo hi offset limit s =
    (Ok (let matches :=
           filter (fun id => Is_true (in_co2e_range (Certificates s) lo hi id))
             (default [] (FarmerCertList s !! a)) in
         (take (N.to_nat limit) (drop (N.to_nat offset) matches),
          N.of_nat (length matches))), s).
Proof.
  intros H. rewrite filter_by_co2e_range_unfold, filter_by_co2e_filter.
  rewrite paginate_cert_list_slice by (by left). done.
Qed.

(** X19. With a lower bound above the upper bound no certificate
    matches: [filter_by_co2e_range] returns the empty page and total 0
    for every offset and limit, also those whose sum does not fit
    [u32]. *)
Theorem filter_by_co2e_range_empty_range (s : Env) (a : Address)
  (lo hi offset limit : N) :
  hi < lo ->
  filter_by_co2e_range a lo hi offset limit s = (Ok ([], 0), s).
Proof.
  intros H. rewrite filter_by_co2e_range_unfold, filter_by_co2e_filter.
  assert (filter (fun id => Is_true (in_co2e_range (Certificates s) lo hi id))
            (default [] (FarmerCertList s !! a)) = []) as ->.
  { induction (default [] (FarmerCertList s !! a)) as [|id l IH]; [done|].
    rewrite filter_cons, IH, in_co2e_range_empty by done.
    by rewrite decide_False by (by intros []). }
  rewrite paginate_cert_list_slice by (right; apply N.le_0_l).
  by rewrite drop_nil, take_nil.
Qed.

Lemma list_certificates_by_verifier_unfold a offset limit s :
  list_certificates_by_verifier a offset limit s =
    unwrap (paginate_cert_list (default [] (VerifierCertList s !! a))
              offset limit) s.
Proof. unfold list_certificates_by_verifier. by msimpl. Qed.

(** X20. Consecutive pages of a verifier's list tile it: the page at
    [offset] of [limit1] ids followed by the page at [offset + limit1]
    of [limit2] ids is the page at [offset] of [limit1 + limit2] ids,
    and the three calls report the same total. *)
Theorem list_certificates_by_verifier_pages_tile (s : Env) (a : Address)
  (offset limit1 limit2 : N) :
  offset + limit1 + limit2 <= u32_MAX ->
  exists page1 page2 total,
    list_certificates_by_verifier a offset limit1 s = (Ok (page1, total), s) /\
    list_certificates_by_verifier a (offset + limit1) limit2 s =
      (Ok (page2, total), s) /\
    list_certificates_by_verifier a offset (limit1 + limit2) s =
      (Ok (page1 ++ page2, total), s).
Proof.
  intros H. rewrite !list_certificates_by_verifier_unfold.
  rewrite !paginate_cert_list_slice by (left; lia).
  eexists _, _, _. split_and!; [done|done|].
  rewrite !N2Nat.inj_add, <- drop_drop, take_take_drop. done.
Qed.

Lemma find_index_middle id l1 l2 k :
  id ∉ l1 -> find_index id (l1 ++ id :: l2) k = Some (k + length l1)%nat.
Proof.
  revert k. induction l1 as [|x l1 IH]; intros k Hnot; simpl.
  - rewrite N.eqb_refl. f_equal. lia.
  - apply not_elem_of_cons in Hnot as [Hne Hnot].
    rewrite (proj2 (N.eqb_neq x id)) by done.
    rewrite IH by done. f_equal. lia.
Qed.

Lemma remove_id_last id l1 : id ∉ l1 -> remove_id id (l1 ++ [id]) = l1.
Proof.
  intros Hnot. unfold remove_id. rewrite find_index_middle by done. simpl.
  unfold swap_and_pop, sub_u32. rewrite length_app. simpl length.
  destruct (N.leb_spec 1 (N.of_nat (length l1 + 1))) as [_|?]; [|lia].
  simpl.
  destruct (N.ltb_spec (N.of_nat (length l1)) (N.of_nat (length l1 + 1) - 1));
    [lia|].
  simpl. by rewrite removelast_last.
Qed.

Lemma remove_id_moves_last id l1 l2 z :
  id ∉ l1 -> remove_id id (l1 ++ id :: l2 ++ [z]) = l1 ++ z :: l2.
Proof.
  intros Hnot. unfold remove_id. rewrite find_index_middle by done. simpl.
  unfold swap_and_pop, sub_u32. rewrite !length_app. simpl length.
  rewrite length_app. simpl length.
  destruct (N.leb_spec 1 (N.of_nat (length l1 + S (length l2 + 1)))) as [_|?];
    [|lia].
  simpl.
  replace (N.of_nat (length l1 + S (length l2 + 1)) - 1)
    with (N.of_nat (length l1 + S (length l2))) by lia.
  destruct (N.ltb_spec (N.of_nat (length l1))
              (N.of_nat (length l1 + S (length l2)))); [|lia].
  rewrite Nat2N.id.
  replace (l1 ++ id :: l2 ++ [z]) with ((l1 ++ id :: l2) ++ [z])
    by (by rewrite <- app_assoc).
  rewrite lookup_app_r by (rewrite length_app; simpl; lia).
  replace (length l1 + S (length l2) - length (l1 ++ id :: l2))%nat with 0%nat
    by (rewrite length_app; simpl; lia).
  simpl. rewrite <- app_assoc. simpl.
  rewrite (vec_set_middle l1 z id (l2 ++ [z])). simpl.
  replace (l1 ++ z :: l2 ++ [z]) with ((l1 ++ z :: l2) ++ [z])
    by (by rewrite <- app_assoc).
  by rewrite removelast_last.
Qed.

(** X21. [remove_from_index] does not keep the order of a list: when
    the id is not the last of the list, the last id of the list takes
    its place and the ids in between stay where they are; when it is
    the last, the list is just cut. *)
Theorem remove_from_index_moves_last_into_place (s : Env) (a : Address)
  (is_farmer : bool) (id z : N) (l1 l2 : list N) :
  id ∉ l1 ->
  (get_index a is_farmer s = Some (l1 ++ id :: l2 ++ [z]) ->
   remove_from_index a id is_farmer s =
     (Ok tt, set_index a is_farmer (l1 ++ z :: l2) s)) /\
  (get_index a is_farmer s = Some (l1 ++ [id]) ->
   remove_from_index a id is_farmer s = (Ok tt, set_index a is_farmer l1 s)).
Proof.
  intros Hnot. split; intros Hl; rewrite remove_from_index_run, Hl.
  - by rewrite remove_id_moves_last.
  - by rewrite remove_id_last.
Qed.

Lemma sort_pairs_stored certs sort_by ids :
  (forall id, id ∈ ids -> is_Some (certs !! id)) ->
  sort_pairs certs sort_by ids =
    (fun id => (id, key_of certs sort_by id)) <$> ids.
Proof.
  induction ids as [|id ids IH]; intros H; [done|].
  simpl. unfold key_of at 1.
  destruct (H id) as [r Hr]; [left|]. rewrite Hr.
  rewrite IH; [done|]. intros id' Hin. apply H. by right.
Qed.

Lemma StronglySorted_fst (R : relation (N * N)) (R' : relation N)
  (out : list (N * N)) :
  (forall a b, a ∈ out -> b ∈ out -> R a b -> R' a.1 b.1) ->
  StronglySorted R out -> StronglySorted R' out.*1.
Proof.
  intros H Hs. induction Hs as [|a l Hs IH Hall]; simpl; constructor.
  - apply IH. intros x y Hx Hy. apply H; by right.
  - apply Forall_fmap, Forall_forall. intros b Hb. simpl.
    apply H; [left|by right|].
    by apply (proj1 (Forall_forall _ _) Hall).
Qed.

Lemma sort_certificates_sorted certs ids sort_by d :
  (forall id, id ∈ ids -> is_Some (certs !! id)) ->
  exists out, sort_certificates certs ids sort_by d = Some out /\
    out ≡ₚ ids /\ StronglySorted (keys_in_order certs sort_by d) out.
Proof.
  intros H. unfold sort_certificates. case_bool_decide as Hlen.
  - exists ids. split_and!; [done|done|].
    destruct ids as [|x [|y ids]]; simpl in Hlen; [| |lia];
      repeat constructor.
  - rewrite sort_pairs_stored by done.
    destruct (bubble_sort_sorts d
                ((fun id => (id, key_of certs sort_by id)) <$> ids))
      as (out & -> & Hperm & Hsorted).
    simpl. eexists. split_and!; [done| |].
    + rewrite Hperm, <- list_fmap_compose. by rewrite list_fmap_id.
    + apply (StronglySorted_fst (in_order d)); [|done].
      assert (forall p, p ∈ out -> p.2 = key_of certs sort_by p.1) as Hkey.
      { intros p Hp. rewrite Hperm in Hp.
        by apply list_elem_of_fmap in Hp as (id & -> & _). }
      intros a b Ha Hb. unfold in_order, keys_in_order.
      by rewrite (Hkey a Ha), (Hkey b Hb).
Qed.

Lemma list_certificates_by_farmer_unfold a offset limit sort_by d s :
  list_certificates_by_farmer a offset limit sort_by d s =
    (sorted_ids <- unwrap (sort_certificates (Certificates s)
                             (default [] (FarmerCertList s !! a)) sort_by d) ;;
     unwrap (paginate_cert_list sorted_ids offset limit)) s.
Proof. unfold list_certificates_by_farmer. by msimpl. Qed.

(** X27. In every reachable state [list_certificates_by_farmer] returns
    a page of a rearrangement of the farmer's list that is ordered by
    the chosen key in the chosen direction, and the size of the
    farmer's list as the total: no certificate of the farmer is lost or
    doubled by the sort. *)
Theorem list_certificates_by_farmer_sorted_page (s : Env) (a : Address)
  (offset limit : N) (sort_by : SortBy) (is_descending : bool) :
  reachable s ->
  offset + limit <= u32_MAX ->
  exists sorted,
    sorted ≡ₚ default [] (FarmerCertList s !! a) /\
    StronglySorted (keys_in_order (Certificates s) sort_by is_descending)
      sorted /\
    list_certificates_by_farmer a offset limit sort_by is_descending s =
      (Ok (take (N.to_nat limit) (drop (N.to_nat offset) sorted),
           N.of_nat (length (default [] (FarmerCertList s !! a)))), s).
Proof.
  intros Hs Hfit.
  destruct (reachable_registry_inv s Hs) as [_ _ _ Hf _].
  destruct (sort_certificates_sorted (Certificates s)
              (default [] (FarmerCertList s !! a)) sort_by is_descending)
    as (out & Hsort & Hperm & Hsorted).
  { intros id Hin. destruct (FarmerCertList s !! a) as [l|] eqn:Hl.
    - destruct (Hf a l Hl) as [_ Hrec].
      destruct (Hrec id Hin) as (r & -> & _). by eexists.
    - by apply elem_of_nil in Hin. }
  exists out. split_and!; [done|done|].
  rewrite list_certificates_by_farmer_unfold, Hsort. msimpl.
  rewrite paginate_cert_list_slice by (by left).
  by rewrite (Permutation_length Hperm).
Qed.

(** *** The bridge to the ledger *)

Lemma u128_as_i128_small x :
  (Z.of_N x <= i128_MAX)%Z -> u128_as_i128 x = Z.of_N x.
Proof.
  intros H. unfold u128_as_i128. cbv zeta.
  rewrite Z.mod_small by (unfold i128_MAX in H; lia).
  by rewrite (proj2 (Z.leb_le _ _) H).
Qed.

Lemma u128_as_i128_large x :
  (i128_MAX < Z.of_N x)%Z -> x <= u128_MAX -> (u128_as_i128 x < 0)%Z.
Proof.
  intros H Hmax. unfold u128_as_i128. cbv zeta.
  rewrite Z.mod_small by (unfold u128_MAX in Hmax; lia).
  rewrite (proj2 (Z.leb_gt _ _) H). unfold u128_MAX in Hmax. lia.
Qed.

(** The ledgers a successful [mint_certificate] leaves. *)
Lemma minted_ledgers ctx id r n1 n2 s :
  ledgers (minted ctx id r n1 n2 s) =
    match TokenContractId s with
    | Some t =>
        match ledgers s !! t with
        | Some ledger =>
            match CarbonToken.mint (nested_ctx ctx t) (farmer_address r)
                    (u128_as_i128 (co2e_tons r)) ledger with
            | (Ok _, ledger') => <[t := ledger']> (ledgers s)
            | _ => ledgers s
            end
        | None => ledgers s
        end
    | None => ledgers s
    end.
Proof.
  unfold minted, bridge, after_invoke, invoke_contract_mint. cbv zeta.
  fields. destruct (TokenContractId s) as [t|]; fields; [|done].
  destruct (ledgers s !! t) as [ledger|]; fields; [|done].
  destruct (CarbonToken.mint _ _ _ ledger) as [[v| |] ledger']; by fields.
Qed.

(** X23. One token per ton.  On a registry bridged to a ledger whose
    admin is the registry contract itself, a successful
    [mint_certificate] of a record whose tons fit [i128] credits the
    farmer on that ledger with exactly [co2e_tons] tokens, leaves every
    other balance and every other ledger alone, and appends one
    [MintEvent] to the ledger's log. *)
Theorem mint_certificate_mints_tokens ctx (s : Env) (id : N)
  (r : VerificationRecord) (t : Address) (ledger : CarbonToken.State) :
  TokenContractId s = Some t ->
  ledgers s !! t = Some ledger ->
  CarbonToken.Admin ledger = Some (current_contract ctx) ->
  (Z.of_N (co2e_tons r) <= i128_MAX)%Z ->
  (TokenSpec.balance_of ledger (farmer_address r) + Z.of_N (co2e_tons r)
     <= i128_MAX)%Z ->
  (i128_MIN <= TokenSpec.balance_of ledger (farmer_address r))%Z ->
  verifier_address r ∈ authorized ctx ->
  hectares_not_burned r <> 0 -> co2e_tons r <> 0 ->
  Certificates s !! id = None ->
  default 0 (TotalCertificates s) + 1 <= u32_MAX ->
  default 0 (TotalCO2e s) + co2e_tons r <= u128_MAX ->
  exists s' ledger',
    mint_certificate ctx id r s = (Ok tt, s') /\
    ledgers s' = <[t := ledger']> (ledgers s) /\
    TokenSpec.balance_of ledger' (farmer_address r) =
      (TokenSpec.balance_of ledger (farmer_address r)
       + Z.of_N (co2e_tons r))%Z /\
    (forall a, a <> farmer_address r ->
       TokenSpec.balance_of ledger' a = TokenSpec.balance_of ledger a) /\
    CarbonToken.events ledger' =
      CarbonToken.events ledger ++
        [CarbonToken.MintEvent (farmer_address r) (Z.of_N (co2e_tons r))].
Proof.
  intros Ht Hl Hadmin Hfit Hsum Hlow Hauth Hh Hc Hnew Hn1 Hn2.
  eexists. eexists. split; [by apply mint_certificate_run|].
  rewrite minted_ledgers, Ht, Hl, u128_as_i128_small by done.
  rewrite LedgerFacts.mint_unfold, Hadmin.
  rewrite bool_decide_eq_true_2 by (simpl; left).
  rewrite (proj2 (Z.leb_gt _ _)) by lia.
  unfold add_i128.
  rewrite (proj2 (in_i128_spec _)) by (unfold i128_MIN in *; lia).
  split_and!; [done| | |done].
  - TokenFacts.reads. by rewrite decide_True.
  - intros a Ha. TokenFacts.reads. by rewrite decide_False.
Qed.

(** X24. Tons that do not fit [i128] are certified without tokens.
    The bridge converts the tons with [as i128]; from 2^127 on the
    amount is negative, which the ledger's [mint] never accepts.
    [mint_certificate] still returns [Ok], stores the record and counts
    its tons, and no ledger changes. *)
Theorem mint_certificate_beyond_i128_mints_no_tokens ctx (s : Env) (id : N)
  (r : VerificationRecord) :
  (i128_MAX < Z.of_N (co2e_tons r))%Z ->
  verifier_address r ∈ authorized ctx ->
  hectares_not_burned r <> 0 -> co2e_tons r <> 0 ->
  Certificates s !! id = None ->
  default 0 (TotalCertificates s) + 1 <= u32_MAX ->
  default 0 (TotalCO2e s) + co2e_tons r <= u128_MAX ->
  exists s',
    mint_certificate ctx id r s = (Ok tt, s') /\
    ledgers s' = ledgers s /\
    Certificates s' !! id = Some r /\
    (get_total_co2e s').1 = Ok (default 0 (TotalCO2e s) + co2e_tons r).
Proof.
  intros Hbig Hauth Hh Hc Hnew Hn1 Hn2.
  eexists. split; [by apply mint_certificate_run|].
  destruct (minted_storage ctx id r (default 0 (TotalCertificates s) + 1)
              (default 0 (TotalCO2e s) + co2e_tons r) s)
    as (M1 & _ & _ & M4 & _).
  cbv zeta in M1, M4. split_and!.
  - rewrite minted_ledgers.
    destruct (TokenContractId s) as [t|]; [|done].
    destruct (ledgers s !! t) as [ledger|]; [|done].
    rewrite LedgerFacts.mint_unfold.
    destruct (CarbonToken.Admin ledger) as [admin|]; [|done].
    destruct (bool_decide _); [|done].
    rewrite (proj2 (Z.leb_le _ _)); [done|].
    pose proof (u128_as_i128_large (co2e_tons r) Hbig). lia.
  - rewrite M1. apply lookup_insert_eq.
  - unfold get_total_co2e, gets. cbn [fst]. by rewrite M4.
Qed.

(** X28. No entry point of the registry other than [mint_certificate]
    changes a ledger, and [mint_certificate] changes at most the ledger
    of the configured token contract, by a [mint] for the farmer of the
    record that this ledger accepted from the registry contract. *)
Theorem only_the_bridge_changes_a_ledger ctx (c : Call) (s s' : Env) (v : Value) :
  CarbonCertifier.run ctx c s = (Ok v, s') ->
  ledgers s' = ledgers s \/
  exists id r t ledger ledger',
    c = CallMintCertificate id r /\
    TokenContractId s = Some t /\
    ledgers s !! t = Some ledger /\
    CarbonToken.mint (nested_ctx ctx t) (farmer_address r)
      (u128_as_i128 (co2e_tons r)) ledger = (Ok tt, ledger') /\
    ledgers s' = <[t := ledger']> (ledgers s).
Proof.
  intros Hrun. apply certifier_run_Ok in Hrun.
  destruct c; try (left; by subst).
  - left. by destruct Hrun as [_ ->].
  - left. by destruct Hrun as (_ & _ & ->).
  - apply mint_certificate_Ok in Hrun as (_ & _ & _ & _ & _ & _ & ->).
    rewrite minted_ledgers.
    destruct (TokenContractId s) as [t|] eqn:Ht; [|by left].
    destruct (ledgers s !! t) as [ledger|] eqn:Hl; [|by left].
    destruct (CarbonToken.mint _ _ _ ledger) as [[[]| |] ledger'] eqn:Hm;
      [|by left|by left].
    right. by exists certificate_id, record, t, ledger, ledger'.
  - left. by destruct Hrun as (_ & _ & _ & ->).
  - left. destruct Hrun as (r & o & _ & _ & _ & ->).
    by destruct (burned_config certificate_id r o s) as (_ & _ & -> & _).
Qed.

(** *** Witnesses on concrete registries *)

Lemma reachable_registry_after signers calls s :
  reachable s -> reachable (registry_after signers calls s).
Proof.
  revert s. induction calls as [|c calls IH]; intros s Hs; [done|].
  unfold registry_after. simpl. apply IH. unfold commit.
  destruct (CarbonCertifier.run (mkCtx signers "certifier" 1700000000) c s)
    as [[v|e|] s'] eqn:Hrun; simpl; [|done|done].
  by eapply reachable_call.
Qed.

Lemma reachable_sold : reachable sold.
Proof. apply reachable_registry_after, reachable_initial. Qed.

Lemma registry_admin_set_once_witness :
  initialize (mkCtx ["mallory"] "certifier" 0) "mallory" sold
    = (Err AlreadyExists, sold).
Proof.
  apply (proj1 (proj2 (registry_admin_set_once
                         (mkCtx ["mallory"] "certifier" 0) sold "mallory"))
           "admin").
  vm_compute. reflexivity.
Defined.

Lemma set_token_contract_id_admin_only_witness :
  set_token_contract_id (mkCtx ["mallory"] "certifier" 0) "mallory" "other" sold
    = (Err NotAuthorized, sold).
Proof.
  apply (proj1 (proj2 (proj2 (set_token_contract_id_admin_only
                         (mkCtx ["mallory"] "certifier" 0) sold
                         "mallory" "other" "other"))) "admin").
  - compute_done.
  - vm_compute. reflexivity.
  - discriminate.
Defined.

Lemma mint_certificate_checks_in_order_witness :
  mint_certificate sample_ctx 1 (sample_record 7) sold
    = (Err AlreadyExists, sold).
Proof.
  apply (proj1 (proj2 (proj2 (mint_certificate_checks_in_order
                         sample_ctx sold 1 (sample_record 7)
                         ltac:(compute_done))))).
  - discriminate.
  - discriminate.
  - vm_compute. eauto.
Defined.

Lemma mint_then_get_witness :
  get_certificate_data 1
    (mint_certificate sample_ctx 1 (sample_record 100) (initial ∅)).2
  = (Ok (sample_record 100),
     (mint_certificate sample_ctx 1 (sample_record 100) (initial ∅)).2).
Proof.
  refine (proj1 (mint_then_get sample_ctx (initial ∅) 1 (sample_record 100) _ _)).
  vm_compute. reflexivity.
Defined.

Lemma transfer_certificate_changes_owner_only_witness :
  transfer_certificate (mkCtx ["farmer"] "certifier" 0) 1 "farmer" "friend" sold
    = (Err NotOwner, sold).
Proof.
  apply (proj1 (proj2 (proj2 (transfer_certificate_changes_owner_only
                         (mkCtx ["farmer"] "certifier" 0) sold 1
                         "farmer" "friend"))) "buyer").
  - compute_done.
  - vm_compute. eauto.
  - vm_compute. reflexivity.
  - discriminate.
Defined.

Lemma transfer_certificate_hands_over_witness :
  get_certificate_owner 1 sold = (Ok "buyer", sold).
Proof.
  refine (proj1 (transfer_certificate_hands_over
                   (mkCtx ["verifier"; "farmer"] "certifier" 1700000000)
                   (registry_after ["verifier"; "farmer"]
                      [CallInitialize "admin";
                       CallMintCertificate 1 (sample_record 100)] (initial ∅))
                   1 "farmer" "buyer" sold _ _)).
  - vm_compute. reflexivity.
  - discriminate.
Defined.

Lemma burn_certificate_owner_only_witness :
  burn_certificate (mkCtx ["farmer"; "verifier"] "certifier" 0) 1 sold
    = (Panic, sold).
Proof.
  apply (proj1 (proj1 (proj2 (burn_certificate_owner_only
                         (mkCtx ["farmer"; "verifier"] "certifier" 0) sold 1))
                  (sample_record 100) "buyer"
                  ltac:(vm_compute; reflexivity)
                  ltac:(vm_compute; reflexivity))).
  compute_done.
Defined.

Lemma unauthorized_call_traps_witness :
  CarbonCertifier.run (mkCtx ["mallory"] "certifier" 0)
    (CallBurnCertificate 1) sold = (Panic, sold).
Proof.
  apply (unauthorized_call_traps (mkCtx ["mallory"] "certifier" 0)
           (CallBurnCertificate 1) sold "buyer").
  - vm_compute. reflexivity.
  - compute_done.
Defined.

Lemma events_append_only_witness :
  events (CarbonCertifier.run sample_ctx
            (CallMintCertificate 2 (sample_record 50)) sold).2
  = events sold ++
      emitted sample_ctx (CallMintCertificate 2 (sample_record 50)) sold.
Proof.
  apply (events_append_only sample_ctx
           (CallMintCertificate 2 (sample_record 50)) sold VUnit).
  vm_compute. reflexivity.
Defined.

Lemma index_lists_witness :
  (forall a id,
     (exists l, FarmerCertList sold !! a = Some l /\ id ∈ l) <->
     (exists r, Certificates sold !! id = Some r /\ farmer_address r = a)) /\
  (forall a id,
     (exists l, VerifierCertList sold !! a = Some l /\ id ∈ l) <->
     (exists r, Certificates sold !! id = Some r /\ verifier_address r = a)) /\
  (forall a l, FarmerCertList sold !! a = Some l -> NoDup l) /\
  (forall a l, VerifierCertList sold !! a = Some l -> NoDup l).
Proof.
  apply index_lists_hold_exactly_the_live_certificates. exact reachable_sold.
Defined.

Lemma stored_records_valid_and_bounded_witness :
  (forall id r, Certificates two_equal !! id = Some r ->
     0 < hectares_not_burned r /\ 0 < co2e_tons r) /\
  N.of_nat (size (Certificates two_equal)) <= u32_MAX /\
  total_co2e_of (Certificates two_equal) <= u128_MAX.
Proof.
  apply stored_records_valid_and_bounded. exact reachable_two_equal.
Defined.

Lemma burn_then_mint_again_witness :
  exists s1 s2,
    burn_certificate (mkCtx ["buyer"] "certifier" 0) 1 sold = (Ok tt, s1) /\
    mint_certificate sample_ctx 1 (sample_record 100) s1 = (Ok tt, s2) /\
    Certificates s2 = Certificates sold /\
    (get_total_certificates s2).1 = (get_total_certificates sold).1 /\
    (get_total_co2e s2).1 = (get_total_co2e sold).1 /\
    CertificateOwner s2 !! 1 = Some (farmer_address (sample_record 100)) /\
    (exists l l2,
       FarmerCertList sold !! farmer_address (sample_record 100) = Some l /\
       FarmerCertList s2 !! farmer_address (sample_record 100) = Some l2 /\
       l2 ≡ₚ l).
Proof.
  apply (burn_then_mint_again (mkCtx ["buyer"] "certifier" 0) sample_ctx sold 1
           (sample_record 100) "buyer" reachable_sold).
  - vm_compute. reflexivity.
  - vm_compute. reflexivity.
  - compute_done.
  - compute_done.
Defined.

Lemma filter_by_co2e_range_pages_witness :
  filter_by_co2e_range "farmer" 60 200 0 10 three_distinct =
    (Ok (let matches :=
           filter (fun id =>
                     Is_true (in_co2e_range (Certificates three_distinct) 60 200 id))
             (default [] (FarmerCertList three_distinct !! "farmer")) in
         (take (N.to_nat 10) (drop (N.to_nat 0) matches),
          N.of_nat (length matches))), three_distinct).
Proof.
  apply (filter_by_co2e_range_pages_the_matches three_distinct "farmer" 60 200 0 10).
  compute_done.
Defined.

Lemma filter_by_co2e_range_empty_range_witness :
  filter_by_co2e_range "farmer" 200 60 1 4294967295 three_distinct
    = (Ok ([], 0), three_distinct).
Proof.
  apply (filter_by_co2e_range_empty_range three_distinct "farmer" 200 60
           1 4294967295).
  reflexivity.
Defined.

Lemma list_certificates_by_verifier_pages_tile_witness :
  exists page1 page2 total,
    list_certificates_by_verifier "verifier" 0 1 three_distinct
      = (Ok (page1, total), three_distinct) /\
    list_certificates_by_verifier "verifier" (0 + 1) 2 three_distinct
      = (Ok (page2, total), three_distinct) /\
    list_certificates_by_verifier "verifier" 0 (1 + 2) three_distinct
      = (Ok (page1 ++ page2, total), three_distinct).
Proof.
  apply (list_certificates_by_verifier_pages_tile three_distinct "verifier" 0 1 2).
  compute_done.
Defined.

Lemma remove_from_index_moves_last_witness :
  remove_from_index "farmer" 1 true three_distinct
    = (Ok tt, set_index "farmer" true ([] ++ 3 :: [2]) three_distinct).
Proof.
  apply (proj1 (remove_from_index_moves_last_into_place three_distinct "farmer"
                  true 1 3 [] [2] ltac:(compute_done))).
  vm_compute. reflexivity.
Defined.

Lemma list_certificates_by_farmer_sorted_page_witness :
  exists sorted,
    sorted ≡ₚ default [] (FarmerCertList three_distinct !! "farmer") /\
    StronglySorted (keys_in_order (Certificates three_distinct) Co2eTons true)
      sorted /\
    list_certificates_by_farmer "farmer" 0 2 Co2eTons true three_distinct =
      (Ok (take (N.to_nat 2) (drop (N.to_nat 0) sorted),
           N.of_nat (length (default []
                               (FarmerCertList three_distinct !! "farmer")))),
       three_distinct).
Proof.
  apply (list_certificates_by_farmer_sorted_page three_distinct "farmer" 0 2
           Co2eTons true reachable_three_distinct).
  compute_done.
Defined.

Lemma mint_certificate_mints_tokens_witness :
  exists s' ledger',
    mint_certificate sample_ctx 1 (sample_record 100) bridged_live = (Ok tt, s') /\
    ledgers s' = <["token" := ledger']> (ledgers bridged_live) /\
    TokenSpec.balance_of ledger' (farmer_address (sample_record 100)) =
      (TokenSpec.balance_of (CarbonToken.set_Admin "certifier" CarbonToken.empty)
         (farmer_address (sample_record 100))
       + Z.of_N (co2e_tons (sample_record 100)))%Z /\
    (forall a, a <> farmer_address (sample_record 100) ->
       TokenSpec.balance_of ledger' a =
         TokenSpec.balance_of
           (CarbonToken.set_Admin "certifier" CarbonToken.empty) a) /\
    CarbonToken.events ledger' =
      CarbonToken.events (CarbonToken.set_Admin "certifier" CarbonToken.empty) ++
        [CarbonToken.MintEvent (farmer_address (sample_record 100))
           (Z.of_N (co2e_tons (sample_record 100)))].
Proof.
  apply (mint_certificate_mints_tokens sample_ctx bridged_live 1
           (sample_record 100) "token"
           (CarbonToken.set_Admin "certifier" CarbonToken.empty)).
  - vm_compute. reflexivity.
  - vm_compute. reflexivity.
  - reflexivity.
  - compute_done.
  - compute_done.
  - compute_done.
  - compute_done.
  - discriminate.
  - discriminate.
  - vm_compute. reflexivity.
  - compute_done.
  - compute_done.
Defined.

Lemma mint_certificate_beyond_i128_witness :
  exists s',
    mint_certificate sample_ctx 1
      (sample_record 170141183460469231731687303715884105728) bridged_live
      = (Ok tt, s') /\
    ledgers s' = ledgers bridged_live /\
    Certificates s' !! 1 =
      Some (sample_record 170141183460469231731687303715884105728) /\
    (get_total_co2e s').1 =
      Ok (default 0 (TotalCO2e bridged_live)
          + co2e_tons (sample_record 170141183460469231731687303715884105728)).
Proof.
  apply (mint_certificate_beyond_i128_mints_no_tokens sample_ctx bridged_live 1
           (sample_record 170141183460469231731687303715884105728)).
  - compute_done.
  - compute_done.
  - discriminate.
  - discriminate.
  - vm_compute. reflexivity.
  - compute_done.
  - compute_done.
Defined.

Lemma only_the_bridge_changes_a_ledger_witness :
  ledgers (CarbonCertifier.run sample_ctx
             (CallTransferCertificate 1 "farmer" "buyer") three_distinct).2
    = ledgers three_distinct \/
  exists id r t ledger ledger',
    CallTransferCertificate 1 "farmer" "buyer" = CallMintCertificate id r /\
    TokenContractId three_distinct = Some t /\
    ledgers three_distinct !! t = Some ledger /\
    CarbonToken.mint (nested_ctx sample_ctx t) (farmer_address r)
      (u128_as_i128 (co2e_tons r)) ledger = (Ok tt, ledger') /\
    ledgers (CarbonCertifier.run sample_ctx
               (CallTransferCertificate 1 "farmer" "buyer") three_distinct).2
      = <[t := ledger']> (ledgers three_distinct).
Proof.
  apply (only_the_bridge_changes_a_ledger sample_ctx
           (CallTransferCertificate 1 "farmer" "buyer") three_distinct _ VUnit).
  vm_compute. reflexivity.
Defined.

End CertifierFacts.
